(** * StationManager: the station registry, the backup pool and the dispatch
    pass of the bistro simulation (src/StationManager.cpp).

    The development is a shallow embedding.  Objects reached through C++
    pointers to [KitchenStation] and [Dish] objects live in a store indexed
    by their address, so that aliasing (the same station found twice, the
    same dish queued and assigned) is visible; every address handed to the
    manager designates a live object, as its preconditions ask.  C++ [int]
    is embedded as [Z].  The one [int] addition of StationManager.cpp,
    [quantity += quantity] in [addBackupIngredient], is written with the
    32-bit two's complement wrap-around the compiled program shows
    ([wrap_int]); the subtraction in the withdrawal is guarded by
    [0 < quantity <= it->quantity] and cannot leave the range, and the
    station's own arithmetic belongs to code that is not in the sources and
    follows the specification's words.  [double] prices are IEEE binary64
    values that the code only copies. *)

From Stdlib Require Import ZArith String List Bool Lia.
From Stdlib Require Import Floats.PrimFloat.
From stdpp Require Import base list strings functions.

Local Open Scope Z_scope.

(** ** Data model *)

(** Addresses of the caller-owned objects. *)
Abbreviation StationPtr := nat (only parsing).
Abbreviation DishPtr := nat (only parsing).

(** Modelled from the spec: the header declaring [Ingredient] is missing
    from the sources; section 3 has the record be (name, quantity on hand,
    quantity required, unit price), which are the fields StationManager.cpp
    reads and the order in which it builds one,
    [Ingredient(name, quantity, required_quantity, price)]. *)
Record Ingredient := mkIngredient {
  name : string;
  quantity : Z;
  required_quantity : Z;
  price : float
}.

(** Modelled from the spec: the header declaring [Dish] is missing from the
    sources; section 6 has an item give its name and its required
    ingredients, the two things the manager reads through [getName()] and
    [getIngredients()]. *)
Record Dish := mkDish {
  dish_name : string;
  dish_ingredients : list Ingredient
}.

(** Modelled from the spec: the header declaring [KitchenStation] is
    missing from the sources; section 3 has a station own a name, the dishes
    assigned to it and an ingredient stock, read by the manager through
    [getName()], [getDishes()] and [getIngredientsStock()]. *)
Record KitchenStation := mkStation {
  station_name_ : string;
  dishes_ : list DishPtr;
  ingredients_stock_ : list Ingredient
}.

(** The station objects in memory together with the members of the
    [StationManager]: the nodes of its linked-list base
    from the head on ([item_count_] is the length), the dish queue (front
    first) and the backup ingredients. *)
Record Bistro := mkBistro {
  station_at : StationPtr → KitchenStation;
  items : list StationPtr;
  dish_queue_ : list DishPtr;
  backup_ingredients_ : list Ingredient
}.

Definition set_items (l : list StationPtr) (b : Bistro) : Bistro :=
  mkBistro (station_at b) l (dish_queue_ b) (backup_ingredients_ b).

Definition set_station (p : StationPtr) (s : KitchenStation) (b : Bistro) : Bistro :=
  mkBistro (<[p := s]> (station_at b)) (items b) (dish_queue_ b)
           (backup_ingredients_ b).

Definition set_dish_queue (q : list DishPtr) (b : Bistro) : Bistro :=
  mkBistro (station_at b) (items b) q (backup_ingredients_ b).

Definition set_backup (pool : list Ingredient) (b : Bistro) : Bistro :=
  mkBistro (station_at b) (items b) (dish_queue_ b) pool.

(** A manager right after its default constructor, over a given memory. *)
Definition emptyManager (mem : StationPtr → KitchenStation) : Bistro :=
  mkBistro mem [] [] [].

(** ** Ingredient lists *)

(** Modelled from the spec: "its quantity is incremented by the new
    record's quantity" (section 4.2), for the station operations that are
    missing from the sources; the manager's own addition is
    [addBackupIngredient_loop]. *)
Definition add_quantity (q : Z) (i : Ingredient) : Ingredient :=
  mkIngredient (name i) (quantity i + q) (required_quantity i) (price i).

(** Modelled from the spec: the "add ingredient" semantics of sections 4.1,
    4.2 and 6 that the station credit follows (the station's code is
    missing from the sources): the first record with the same name has its
    quantity increased by the new record's quantity, otherwise the record
    is appended. *)
Fixpoint addIngredient (l : list Ingredient) (ingredient : Ingredient)
  : list Ingredient :=
  match l with
  | [] => [ingredient]
  | i :: rest =>
      if (name i =? name ingredient)%string
      then add_quantity (quantity ingredient) i :: rest
      else i :: addIngredient rest ingredient
  end.

(** The stock scan of [processAllDishes] (lines 468-475): the quantity of
    the first record carrying the name, 0 when there is none. *)
Fixpoint currentQuantity (stock : list Ingredient) (iname : string) : Z :=
  match stock with
  | [] => 0
  | s :: rest =>
      if (name s =? iname)%string then quantity s
      else currentQuantity rest iname
  end.

(** Quantity on hand of an ingredient in a list of records: the sum over
    all records carrying the name (one record when names are unique). *)
Fixpoint totalQuantity (l : list Ingredient) (iname : string) : Z :=
  match l with
  | [] => 0
  | i :: rest =>
      (if (name i =? iname)%string then quantity i else 0)
      + totalQuantity rest iname
  end.

(** ** Collaborators that are not part of StationManager.cpp *)

Module LinkedList.

(** Modelled from the spec: [LinkedList::insert(position, item)] is
    missing from the sources; section 4.1 has [add] append at the end and
    [moveToFront] reinsert at index 0, failing only outside the list. *)
Definition insert (position : Z) (item : StationPtr) (l : list StationPtr)
  : bool * list StationPtr :=
  if (0 <=? position) && (position <=? Z.of_nat (length l))
  then (true, take (Z.to_nat position) l ++ item :: drop (Z.to_nat position) l)
  else (false, l).

(** Modelled from the spec: [LinkedList::remove(position)] is missing from
    the sources; section 4.1 has it take the entry out of its position,
    the other entries keeping their order. *)
Definition remove (position : Z) (l : list StationPtr)
  : bool * list StationPtr :=
  if (0 <=? position) && (position <? Z.of_nat (length l))
  then (true, delete (Z.to_nat position) l)
  else (false, l).

End LinkedList.

Module KitchenStation.

(** Modelled from the spec: [KitchenStation::assignDishToStation] is
    missing from the sources; section 6 has [assign] register the item at
    the station, duplicates permitted. *)
Definition assignDishToStation (s : KitchenStation) (dish : DishPtr)
  : bool * KitchenStation :=
  (true, mkStation (station_name_ s) (dishes_ s ++ [dish])
                   (ingredients_stock_ s)).

(** Modelled from the spec: [KitchenStation::replenishStationIngredients]
    is missing from the sources; sections 4.1 and 6 have [creditStock] add
    the quantity to the record of that name and create the record when
    absent (match by name, otherwise append). *)
Definition replenishStationIngredients (s : KitchenStation)
    (ingredient : Ingredient) : KitchenStation :=
  mkStation (station_name_ s) (dishes_ s)
            (addIngredient (ingredients_stock_ s) ingredient).

End KitchenStation.

(** ** The station registry *)

Definition getName (b : Bistro) (p : StationPtr) : string :=
  station_name_ (station_at b p).

Definition stationNames (b : Bistro) : list string :=
  getName b <$> items b.

(** [addStation]: insert at position [item_count_]. *)
Definition addStation (b : Bistro) (station : StationPtr) : bool * Bistro :=
  let '(ok, l) := LinkedList.insert (Z.of_nat (length (items b))) station (items b) in
  (ok, set_items l b).

(** The [for] loop of [removeStation] from index [i] on, [entries] being
    the entries at positions [i], [i+1], ... *)
Fixpoint removeStation_loop (b : Bistro) (station_name : string) (i : Z)
    (entries : list StationPtr) : bool * Bistro :=
  match entries with
  | [] => (false, b)
  | p :: rest =>
      if (getName b p =? station_name)%string
      then let '(ok, l) := LinkedList.remove i (items b) in (ok, set_items l b)
      else removeStation_loop b station_name (i + 1) rest
  end.

Definition removeStation (b : Bistro) (station_name : string) : bool * Bistro :=
  removeStation_loop b station_name 0 (items b).

(** The [while] loop of [findStation] from node [searchptr] on. *)
Fixpoint findStation_loop (b : Bistro) (station_name : string)
    (searchptr : list StationPtr) : option StationPtr :=
  match searchptr with
  | [] => None
  | p :: next =>
      if (getName b p =? station_name)%string then Some p
      else findStation_loop b station_name next
  end.

Definition findStation (b : Bistro) (station_name : string) : option StationPtr :=
  findStation_loop b station_name (items b).

(** The [while] loop of [getStationIndex]; -1 when the name is absent. *)
Fixpoint getStationIndex_loop (b : Bistro) (sname : string)
    (searchptr : list StationPtr) (index : Z) : Z :=
  match searchptr with
  | [] => -1
  | p :: next =>
      if (getName b p =? sname)%string then index
      else getStationIndex_loop b sname next (index + 1)
  end.

Definition getStationIndex (b : Bistro) (sname : string) : Z :=
  getStationIndex_loop b sname (items b) 0.

(** The [while] loop of [moveStationToFront] (lines 61-78). *)
Fixpoint moveStationToFront_loop (b : Bistro) (station_name : string)
    (searchptr : list StationPtr) : bool * Bistro :=
  match searchptr with
  | [] => (false, b)
  | p :: next =>
      if (getName b p =? station_name)%string then
        let station := p in
        let pos := getStationIndex b (getName b p) in
        let '(_, l1) := LinkedList.remove pos (items b) in
        let '(_, l2) := LinkedList.insert 0 station l1 in
        (true, set_items l2 b)
      else moveStationToFront_loop b station_name next
  end.

Definition moveStationToFront (b : Bistro) (station_name : string)
  : bool * Bistro :=
  match findStation b station_name with
  | None => (false, b)
  | Some _ =>
      match items b with
      | [] => (false, b)
      | head :: _ =>
          if (getName b head =? station_name)%string then (true, b)
          else moveStationToFront_loop b station_name (items b)
      end
  end.

(** [station1->assignDishToStation(dish)] through the pointer. *)
Definition assignAt (station1 : StationPtr) (b : Bistro) (dish : DishPtr) : Bistro :=
  set_station station1
    (snd (KitchenStation.assignDishToStation (station_at b station1) dish)) b.

(** [station1->replenishStationIngredients(ingredient)] through the pointer. *)
Definition replenishAt (station1 : StationPtr) (b : Bistro)
    (ingredient : Ingredient) : Bistro :=
  set_station station1
    (KitchenStation.replenishStationIngredients (station_at b station1) ingredient) b.

(** [mergeStations]: both range-for loops run over the vector returned by
    the getter when the loop starts. *)
Definition mergeStations (b : Bistro) (station_name1 station_name2 : string)
  : bool * Bistro :=
  match findStation b station_name1, findStation b station_name2 with
  | Some station1, Some station2 =>
      let b1 := fold_left (assignAt station1) (dishes_ (station_at b station2)) b in
      let b2 := fold_left (replenishAt station1)
                  (ingredients_stock_ (station_at b1 station2)) b1 in
      (true, snd (removeStation b2 station_name2))
  | _, _ => (false, b)
  end.

(** [addBackupIngredients] (lines 330-333). *)
Definition addBackupIngredients (b : Bistro) (ingredients : list Ingredient)
  : bool * Bistro := (true, set_backup ingredients b).

(** The range of a 32-bit [int]. *)
Definition INT_MIN : Z := -2147483648.
Definition INT_MAX : Z := 2147483647.

(** The result of an [int] operation whose exact value is [z]: [z] itself
    inside the range, wrapped around modulo 2^32 outside. *)
Definition wrap_int (z : Z) : Z :=
  (z + 2147483648) mod 4294967296 - 2147483648.

(** The loop of [addBackupIngredient] over [backup_ingredients_] (lines
    345-352): the first record with the same name gets
    [quantity += ingredient.quantity], an [int] addition; when no record
    carries the name the ingredient is pushed at the back. *)
Fixpoint addBackupIngredient_loop (pool : list Ingredient)
    (ingredient : Ingredient) : list Ingredient :=
  match pool with
  | [] => [ingredient]
  | backup_ingredient :: rest =>
      if (name backup_ingredient =? name ingredient)%string
      then mkIngredient (name backup_ingredient)
             (wrap_int (quantity backup_ingredient + quantity ingredient))
             (required_quantity backup_ingredient) (price backup_ingredient)
           :: rest
      else backup_ingredient :: addBackupIngredient_loop rest ingredient
  end.

(** [addBackupIngredient] (lines 344-354). *)
Definition addBackupIngredient (b : Bistro) (ingredient : Ingredient)
  : bool * Bistro :=
  (true, set_backup (addBackupIngredient_loop (backup_ingredients_ b) ingredient) b).

(** Position of the first entry of [l] carrying the name, the position
    every scan of the registry stops at. *)
Fixpoint firstNamed (b : Bistro) (sname : string) (l : list StationPtr)
  : option nat :=
  match l with
  | [] => None
  | p :: rest =>
      if (getName b p =? sname)%string then Some 0%nat
      else S <$> firstNamed b sname rest
  end.

(** ** The backup pool *)

(** [it->quantity -= quantity]: the record a withdrawal leaves in the place
    of [it]. *)
Definition withdrawn (qty : Z) (it : Ingredient) : Ingredient :=
  mkIngredient (name it) (quantity it - qty) (required_quantity it) (price it).

(** The [for] loop of [replenishStationIngredientFromBackup] over
    [backup_ingredients_] (lines 298-316): at the first record carrying the
    name it either gives up (quantity too small) or yields the record handed
    to the station and the pool after the withdrawal, the record being
    erased when its quantity reaches zero. *)
Fixpoint withdraw_loop (pool : list Ingredient) (ingredient_name : string)
    (qty : Z) : option (Ingredient * list Ingredient) :=
  match pool with
  | [] => None
  | it :: rest =>
      if (name it =? ingredient_name)%string then
        if qty <=? quantity it then
          let replenished_ingredient :=
            mkIngredient ingredient_name qty 0 (price it) in
          let it' := withdrawn qty it in
          Some (replenished_ingredient,
                if quantity it' =? 0 then rest else it' :: rest)
        else None
      else
        match withdraw_loop rest ingredient_name qty with
        | Some (r, rest') => Some (r, it :: rest')
        | None => None
        end
  end.

Definition replenishStationIngredientFromBackup (b : Bistro)
    (station_name ingredient_name : string) (qty : Z) : bool * Bistro :=
  if qty <=? 0 then (false, b)
  else
    match findStation b station_name with
    | None => (false, b)
    | Some station =>
        match withdraw_loop (backup_ingredients_ b) ingredient_name qty with
        | Some (replenished_ingredient, pool') =>
            (true, set_backup pool' (replenishAt station b replenished_ingredient))
        | None => (false, b)
        end
    end.

(** ** The dispatch pass *)

Definition LF : string := String (Ascii.ascii_of_nat 10) EmptyString.

Section Dispatch.

(** The dish objects in memory; no operation below writes to them. *)
Variable dish_at : DishPtr → Dish.

(** [KitchenStation::canCompleteOrder] and [KitchenStation::prepareDish]
    are missing from the sources and are taken as parameters: a query on
    the station object, and a production step returning its result and
    the station object it leaves behind. *)
Variable canCompleteOrder : KitchenStation → string → bool.
Variable prepareDish : KitchenStation → string → bool * KitchenStation.

(** The assignment scan (lines 442-448). *)
Definition dishAssigned (s : KitchenStation) (dname : string) : bool :=
  existsb (λ assigned_dish,
             (dish_name (dish_at assigned_dish) =? dname)%string)
          (dishes_ s).

(** The replenishment loop (lines 466-484) over the dish's ingredients. *)
Fixpoint replenishLoop (station : StationPtr) (ingredients : list Ingredient)
    (b : Bistro) : bool * Bistro :=
  match ingredients with
  | [] => (true, b)
  | ingredient :: rest =>
      let current_quantity :=
        currentQuantity (ingredients_stock_ (station_at b station))
                        (name ingredient) in
      let replenish_quantity :=
        required_quantity ingredient - current_quantity in
      if 0 <? replenish_quantity then
        let '(ok, b') :=
          replenishStationIngredientFromBackup b (getName b station)
            (name ingredient) replenish_quantity in
        if ok then replenishLoop station rest b' else (false, b')
      else replenishLoop station rest b
  end.

(** One turn of the station loop (lines 439-498) for the station a node
    holds: whether the dish was prepared (the loop then breaks), the state
    left behind and the lines printed. *)
Definition visitStation (dish : DishPtr) (station : StationPtr) (b : Bistro)
  : bool * Bistro * list string :=
  let dname := dish_name (dish_at dish) in
  let attempting :=
    (getName b station ++ " attempting to prepare " ++ dname ++ "...")%string in
  if negb (dishAssigned (station_at b station) dname) then
    (false, b,
     [attempting;
      (getName b station
         ++ ": Dish not available. Moving to next station...")%string])
  else if canCompleteOrder (station_at b station) dname then
    let '(ok, s') := prepareDish (station_at b station) dname in
    let b' := set_station station s' b in
    if ok then
      (true, b',
       [attempting;
        (getName b' station ++ ": Successfully prepared " ++ dname ++ ".")%string])
    else (false, b', [attempting])
  else
    let insufficient :=
      (getName b station
         ++ ": Insufficient ingredients. Replenishing ingredients...")%string in
    let '(replenishment_success, b1) :=
      replenishLoop station (dish_ingredients (dish_at dish)) b in
    if replenishment_success then
      let replenished :=
        (getName b1 station ++ ": Ingredients replenished.")%string in
      let '(ok, s') := prepareDish (station_at b1 station) dname in
      let b2 := set_station station s' b1 in
      if ok then
        (true, b2,
         [attempting; insufficient; replenished;
          (getName b2 station ++ ": Successfully prepared " ++ dname ++ ".")%string])
      else
        (false, b2,
         [attempting; insufficient; replenished;
          (getName b2 station ++ ": Unable to prepare " ++ dname ++ ".")%string])
    else
      (false, b1,
       [attempting; insufficient;
        (getName b1 station
           ++ ": Unable to replenish ingredients. Failed to prepare "
           ++ dname ++ ".")%string]).

(** The station loop (lines 438-501) from node [station_node] on. *)
Fixpoint walkStations (dish : DishPtr) (station_node : list StationPtr)
    (b : Bistro) : bool * Bistro * list string :=
  match station_node with
  | [] => (false, b, [])
  | station :: next =>
      let '(dish_prepared, b', out) := visitStation dish station b in
      if dish_prepared then (true, b', out)
      else
        let '(r, b'', out') := walkStations dish next b' in
        (r, b'', out ++ out')
  end.

(** The queue loop (lines 429-507): [queue] is what is left of
    [dish_queue_], [temp_queue] the dishes put aside so far. *)
Fixpoint processQueue (queue temp_queue : list DishPtr) (b : Bistro)
  : list DishPtr * Bistro * list string :=
  match queue with
  | [] => (temp_queue, b, [])
  | dish :: rest =>
      let b0 := set_dish_queue rest b in
      let preparing :=
        ("PREPARING DISH: " ++ dish_name (dish_at dish))%string in
      let '(dish_prepared, b', out) := walkStations dish (items b0) b0 in
      let temp_queue' :=
        if dish_prepared then temp_queue else temp_queue ++ [dish] in
      let not_prepared :=
        if dish_prepared then []
        else [(dish_name (dish_at dish) ++ " was not prepared.")%string] in
      let '(tq, b'', out') := processQueue rest temp_queue' b' in
      (tq, b'', preparing :: out ++ not_prepared ++ out')
  end.

Definition processAllDishes (b : Bistro) : Bistro * list string :=
  let '(temp_queue, b', out) := processQueue (dish_queue_ b) [] b in
  (set_dish_queue temp_queue b',
   out ++ [(LF ++ LF ++ "All dishes have been processed.")%string]).

(** What the walk of one dish returns, and the state it leaves, with the
    dish already popped from the queue. *)
Definition dishOutcome (dish : DishPtr) (rest : list DishPtr) (b : Bistro)
  : bool * Bistro :=
  let b0 := set_dish_queue rest b in
  fst (walkStations dish (items b0) b0).

(** The outcomes of the walks of all queued dishes, in arrival order, each
    walk starting in the state the previous one left. *)
Fixpoint dishOutcomes (queue : list DishPtr) (b : Bistro) : list bool :=
  match queue with
  | [] => []
  | dish :: rest =>
      let '(r, b') := dishOutcome dish rest b in
      r :: dishOutcomes rest b'
  end.

(** The entries of a queue whose walk failed, in queue order. *)
Fixpoint unresolved (queue : list DishPtr) (outcomes : list bool)
  : list DishPtr :=
  match queue, outcomes with
  | dish :: rest, r :: rs =>
      if r then unresolved rest rs else dish :: unresolved rest rs
  | _, _ => []
  end.

End Dispatch.

(** ** The replenishment, as the specification words it *)

(** Shortfall of an ingredient at a station: required minus on hand. *)
Definition shortfall (station : StationPtr) (b : Bistro)
    (ingredient : Ingredient) : Z :=
  required_quantity ingredient
  - currentQuantity (ingredients_stock_ (station_at b station))
                    (name ingredient).

(** Section 4.4 (2c) of the specification: the ingredients are taken in the
    dish's own order; an ingredient with no positive shortfall is passed
    over; a positive shortfall is withdrawn from the backup pool, exactly
    that amount, and credited to the station; the first withdrawal that
    fails aborts the replenishment, the remaining ingredients being left
    alone.  [ws] lists the withdrawals made, in order. *)
Inductive Replenishment (station : StationPtr)
  : list Ingredient → Bistro → list (string * Z) → bool → Bistro → Prop :=
| Replenishment_done b :
    Replenishment station [] b [] true b
| Replenishment_covered ing rest b ws ok b' :
    shortfall station b ing ≤ 0 →
    Replenishment station rest b ws ok b' →
    Replenishment station (ing :: rest) b ws ok b'
| Replenishment_withdrawn ing rest b b1 ws ok b' :
    0 < shortfall station b ing →
    replenishStationIngredientFromBackup b (getName b station) (name ing)
      (shortfall station b ing) = (true, b1) →
    Replenishment station rest b1 ws ok b' →
    Replenishment station (ing :: rest) b
      ((name ing, shortfall station b ing) :: ws) ok b'
| Replenishment_aborted ing rest b :
    0 < shortfall station b ing →
    replenishStationIngredientFromBackup b (getName b station) (name ing)
      (shortfall station b ing) = (false, b) →
    Replenishment station (ing :: rest) b [] false b.

(** The withdrawals the replenishment loop makes, in order: ingredient name
    and amount. *)
Fixpoint replenishLog (station : StationPtr) (ingredients : list Ingredient)
    (b : Bistro) : list (string * Z) :=
  match ingredients with
  | [] => []
  | ingredient :: rest =>
      if 0 <? shortfall station b ingredient then
        let '(ok, b') :=
          replenishStationIngredientFromBackup b (getName b station)
            (name ingredient) (shortfall station b ingredient) in
        if ok then (name ingredient, shortfall station b ingredient)
                   :: replenishLog station rest b'
        else []
      else replenishLog station rest b
  end.


(** ** A reference station and a small kitchen *)

Module Reference.

(** Modelled from the spec: [KitchenStation::canCompleteOrder] is missing
    from the sources; section 6 has [canProduce] be a query of the
    station's own stock that changes nothing.  Here: the dish is assigned
    and every ingredient it requires is covered by the stock. *)
Definition canCompleteOrder (dish_at : DishPtr → Dish) (s : KitchenStation)
    (dname : string) : bool :=
  match find (λ d, (dish_name (dish_at d) =? dname)%string) (dishes_ s) with
  | Some d =>
      forallb (λ ing, required_quantity ing
                        <=? currentQuantity (ingredients_stock_ s) (name ing))
              (dish_ingredients (dish_at d))
  | None => false
  end.

Fixpoint consume (stock : list Ingredient) (ing : Ingredient)
  : list Ingredient :=
  match stock with
  | [] => []
  | r :: rest =>
      if (name r =? name ing)%string
      then add_quantity (- required_quantity ing) r :: rest
      else r :: consume rest ing
  end.

(** Modelled from the spec: [KitchenStation::prepareDish] is missing from
    the sources; section 6 has [produce] consume the required quantities
    from the station's stock when it returns true and leave the stock
    alone when it returns false. *)
Definition prepareDish (dish_at : DishPtr → Dish) (s : KitchenStation)
    (dname : string) : bool * KitchenStation :=
  if canCompleteOrder dish_at s dname then
    match find (λ d, (dish_name (dish_at d) =? dname)%string) (dishes_ s) with
    | Some d =>
        (true, mkStation (station_name_ s) (dishes_ s)
                 (fold_left consume (dish_ingredients (dish_at d))
                            (ingredients_stock_ s)))
    | None => (false, s)
    end
  else (false, s).

End Reference.

Module Sample.

Definition chicken (q : Z) : Ingredient := mkIngredient "Chicken" q 0 2%float.
Definition rice (q : Z) : Ingredient := mkIngredient "Rice" q 0 1%float.

(** Dish objects at addresses 10, 11 and 12. *)
Definition dish_at (d : DishPtr) : Dish :=
  match d with
  | 10%nat => mkDish "Spaghetti Bolognese"
                [mkIngredient "Spaghetti" 0 1 1.5%float;
                 mkIngredient "Tomato Sauce" 0 1 0.75%float]
  | 11%nat => mkDish "Grilled Chicken" [mkIngredient "Chicken" 0 1 2%float]
  | 12%nat => mkDish "Seafood Paella"
                [mkIngredient "Rice" 0 2 1%float;
                 mkIngredient "Shrimp" 0 3 4%float]
  | _ => mkDish "" []
  end.

(** Station objects at addresses 1 to 5; the object at address 4 carries
    the same name as the one at address 1. *)
Definition mem (p : StationPtr) : KitchenStation :=
  match p with
  | 1%nat => mkStation "Grill Station" [11%nat] [chicken 0]
  | 2%nat => mkStation "Oven Station" [11%nat] [chicken 5]
  | 3%nat => mkStation "Pasta Station" [10%nat] []
  | 4%nat => mkStation "Grill Station" [] []
  | 5%nat => mkStation "Seafood Station" [12%nat] [rice 1]
  | _ => mkStation "" [] []
  end.

(** Grill, Oven and Pasta stations registered in that order. *)
Definition kitchen : Bistro := mkBistro mem [1%nat; 2%nat; 3%nat] [] [].

(** The scenario of section 8 of the specification. *)
Definition scenario (backup_chicken : Z) : Bistro :=
  mkBistro mem [1%nat; 2%nat] [11%nat] [chicken backup_chicken].

(** A seafood station short of rice and shrimp, a pool holding rice only. *)
Definition seafood : Bistro :=
  mkBistro mem [5%nat] [12%nat] [rice 4].

(** A service: four stations, three queued dishes, one chicken in the
    pool. *)
Definition service : Bistro :=
  mkBistro mem [1%nat; 2%nat; 3%nat; 5%nat] [10%nat; 11%nat; 12%nat]
           [chicken 1].


End Sample.

(** ** Sequences of registry operations *)

Inductive RegistryOp :=
| OpAdd (station : StationPtr)
| OpRemove (station_name : string)
| OpMerge (station_name1 station_name2 : string).

Definition applyOp (b : Bistro) (op : RegistryOp) : Bistro :=
  match op with
  | OpAdd station => snd (addStation b station)
  | OpRemove n => snd (removeStation b n)
  | OpMerge n1 n2 => snd (mergeStations b n1 n2)
  end.

Definition runOps (b : Bistro) (ops : list RegistryOp) : Bistro :=
  fold_left applyOp ops b.

(** Every [OpAdd] of the sequence registers a station whose name is not in
    the registry at that moment. *)
Fixpoint addsFresh (b : Bistro) (ops : list RegistryOp) : Prop :=
  match ops with
  | [] => True
  | op :: rest =>
      match op with
      | OpAdd station => findStation b (getName b station) = None
      | _ => True
      end ∧ addsFresh (applyOp b op) rest
  end.

(** ** The other operations of the manager *)

(** [assignDishToStation] of the manager (lines 118-124): the station's own
    answer when the name is registered. *)
Definition assignDishToStation (b : Bistro) (station_name : string)
    (dish : DishPtr) : bool * Bistro :=
  match findStation b station_name with
  | Some station =>
      (fst (KitchenStation.assignDishToStation (station_at b station) dish),
       assignAt station b dish)
  | None => (false, b)
  end.

(** [replenishIngredientAtStation] (lines 127-134). *)
Definition replenishIngredientAtStation (b : Bistro) (station_name : string)
    (ingredient : Ingredient) : bool * Bistro :=
  match findStation b station_name with
  | Some station => (true, replenishAt station b ingredient)
  | None => (false, b)
  end.

(** [clearBackupIngredients] (lines 360-362). *)
Definition clearBackupIngredients (b : Bistro) : Bistro := set_backup [] b.

(** [getDishQueue], [getBackupIngredients] and [setDishQueue]: the getters
    return copies. *)
Definition getDishQueue (b : Bistro) : list DishPtr := dish_queue_ b.
Definition getBackupIngredients (b : Bistro) : list Ingredient :=
  backup_ingredients_ b.
Definition setDishQueue (b : Bistro) (dish_queue : list DishPtr) : Bistro :=
  set_dish_queue dish_queue b.

(** [addDishToQueue] without a request (lines 163-167); [None] is the null
    pointer. *)
Definition addDishToQueue (b : Bistro) (dish : option DishPtr) : Bistro :=
  match dish with
  | Some d => set_dish_queue (dish_queue_ b ++ [d]) b
  | None => b
  end.

Section Orders.

(** The dish objects, and the two station operations missing from the
    sources, taken as parameters as in the dispatch pass. *)
Variable dish_at : DishPtr → Dish.
Variable stationCan : KitchenStation → string → bool.
Variable stationPrepare : KitchenStation → string → bool * KitchenStation.

(** The [while] loop of the manager's [canCompleteOrder] (lines 138-145). *)
Fixpoint canCompleteOrder_loop (b : Bistro) (dname : string)
    (searchptr : list StationPtr) : bool :=
  match searchptr with
  | [] => false
  | p :: next =>
      if stationCan (station_at b p) dname then true
      else canCompleteOrder_loop b dname next
  end.

Definition canCompleteOrder (b : Bistro) (dname : string) : bool :=
  canCompleteOrder_loop b dname (items b).

(** [prepareDishAtStation] (lines 149-155). *)
Definition prepareDishAtStation (b : Bistro) (station_name dname : string)
  : bool * Bistro :=
  match findStation b station_name with
  | Some station =>
      if stationCan (station_at b station) dname then
        let '(ok, s') := stationPrepare (station_at b station) dname in
        (ok, set_station station s' b)
      else (false, b)
  | None => (false, b)
  end.

(** The station loop of [prepareNextDish] (lines 197-206) for the dish at
    the front, [rest] being the queue behind it. *)
Fixpoint prepareNextDish_loop (dish : DishPtr) (rest : list DishPtr)
    (station_node : list StationPtr) (b : Bistro) : bool * Bistro :=
  match station_node with
  | [] => (false, b)
  | station :: next =>
      if stationCan (station_at b station) (dish_name (dish_at dish)) then
        let '(ok, s') :=
          stationPrepare (station_at b station) (dish_name (dish_at dish)) in
        let b' := set_station station s' b in
        if ok then (true, set_dish_queue rest b')
        else prepareNextDish_loop dish rest next b'
      else prepareNextDish_loop dish rest next b
  end.

(** [prepareNextDish] (lines 192-209). *)
Definition prepareNextDish (b : Bistro) : bool * Bistro :=
  match dish_queue_ b with
  | [] => (false, b)
  | dish :: rest => prepareNextDish_loop dish rest (items b) b
  end.

(** [displayDishQueue] (lines 248-254): the lines printed, from a copy of
    the queue. *)
Fixpoint displayDishQueue_loop (temp_queue : list DishPtr) : list string :=
  match temp_queue with
  | [] => []
  | front :: rest => dish_name (dish_at front) :: displayDishQueue_loop rest
  end.

Definition displayDishQueue (b : Bistro) : list string :=
  displayDishQueue_loop (dish_queue_ b).

End Orders.

(** ** Invariants of the backup pool *)

(** Every record of a list holds a positive quantity. *)
Definition allPositive (l : list Ingredient) : Prop :=
  Forall (λ r, 0 < quantity r) l.

(** The line announcing a dish in [processAllDishes]. *)
Definition preparingLine (dish_at : DishPtr → Dish) (d : DishPtr) : string :=
  ("PREPARING DISH: " ++ dish_name (dish_at d))%string.

(** The line closing [processAllDishes]. *)
Definition completionLine : string :=
  (LF ++ LF ++ "All dishes have been processed.")%string.

(** ** The program of main.cpp *)

Module Main.

(** The two [TestDish] objects, at addresses 1 and 2. *)
Definition dish_at (d : DishPtr) : Dish :=
  match d with
  | 1%nat => mkDish "Spaghetti Bolognese"
               [mkIngredient "Spaghetti" 0 1 1.5%float;
                mkIngredient "Tomato Sauce" 0 1 0.75%float]
  | 2%nat => mkDish "Grilled Chicken"
               [mkIngredient "Chicken" 0 1 2%float;
                mkIngredient "Spices" 0 1 0.5%float]
  | _ => mkDish "" []
  end.

(** The two stations as constructed, at addresses 1 and 2: a name, no dish,
    no stock. *)
Definition mem (p : StationPtr) : KitchenStation :=
  match p with
  | 1%nat => mkStation "Grill Station" [] []
  | 2%nat => mkStation "Pasta Station" [] []
  | _ => mkStation "" [] []
  end.

(** The calls of [main] up to [processAllDishes], in order. *)
Definition setup : Bistro :=
  let m := emptyManager mem in
  let m := snd (addStation m 1%nat) in
  let m := snd (addStation m 2%nat) in
  let m := snd (assignDishToStation m "Pasta Station" 1%nat) in
  let m := snd (assignDishToStation m "Grill Station" 2%nat) in
  let m := snd (addBackupIngredient m (mkIngredient "Spaghetti" 5 0 1.5%float)) in
  let m := snd (addBackupIngredient m (mkIngredient "Tomato Sauce" 5 0 0.75%float)) in
  let m := snd (addBackupIngredient m (mkIngredient "Chicken" 5 0 2%float)) in
  let m := snd (addBackupIngredient m (mkIngredient "Spices" 5 0 0.5%float)) in
  let m := addDishToQueue m (Some 1%nat) in
  addDishToQueue m (Some 2%nat).

End Main.

(** * Proofs *)

(** Closes [NoDup l] for a list of distinct literals. *)
Ltac distinct_names :=
  repeat (apply NoDup_cons_2; [intros Hin;
    repeat (apply elem_of_cons in Hin as [Hin|Hin]; [discriminate|]);
    by apply elem_of_nil in Hin|]);
  apply NoDup_nil_2.

(** ** Facts about the registry scans *)

Lemma getName_set_items l b p : getName (set_items l b) p = getName b p.
Proof. reflexivity. Qed.

Lemma firstNamed_ext b b' sname l :
  (∀ p, getName b' p = getName b p) →
  firstNamed b' sname l = firstNamed b sname l.
Proof.
  intros Hn. induction l as [|p l IH]; simpl; [done|].
  rewrite Hn, IH. done.
Qed.

Lemma firstNamed_Some b sname l i :
  firstNamed b sname l = Some i →
  ∃ p, l !! i = Some p ∧ getName b p = sname ∧
       ∀ j q, (j < i)%nat → l !! j = Some q → getName b q ≠ sname.
Proof.
  revert i. induction l as [|p l IH]; intros i; simpl; [done|].
  destruct (String.eqb_spec (getName b p) sname) as [He|Hne].
  - intros [= <-]. exists p. split_and!; [done|done|]. intros j q Hj. lia.
  - destruct (firstNamed b sname l) as [k|] eqn:Hk; simpl; [|done].
    intros [= <-]. destruct (IH k eq_refl) as (q & Hq & Hnm & Hbefore).
    exists q. split_and!; [done|done|].
    intros [|j] r Hj; simpl.
    + intros [= <-]. done.
    + apply Hbefore. lia.
Qed.

Lemma firstNamed_None b sname l :
  firstNamed b sname l = None ↔ ∀ p, p ∈ l → getName b p ≠ sname.
Proof.
  induction l as [|p l IH]; simpl.
  - split; [|done]. intros _ p Hp. by apply elem_of_nil in Hp.
  - destruct (String.eqb_spec (getName b p) sname) as [He|Hne].
    + split; [done|]. intros H. destruct (H p); [left|done].
    + destruct (firstNamed b sname l) as [k|]; simpl.
      * split; [done|]. intros H.
        assert (Some k = None) as [=]. apply IH. intros q Hq. apply H. by right.
      * split; [|done]. intros _ q [->|Hq]%elem_of_cons; [done|].
        by apply IH.
Qed.

Lemma firstNamed_first b sname l i p :
  l !! i = Some p → getName b p = sname →
  (∀ j q, (j < i)%nat → l !! j = Some q → getName b q ≠ sname) →
  firstNamed b sname l = Some i.
Proof.
  revert i. induction l as [|h l IH]; intros i; [done|]. simpl.
  destruct i as [|i]; simpl.
  - intros [= ->] -> _. by rewrite String.eqb_refl.
  - intros Hp Hn Hbefore.
    destruct (String.eqb_spec (getName b h) sname) as [He|Hne].
    + destruct (Hbefore 0%nat h); [lia|done|done].
    + rewrite (IH i); [done|done|done|].
      intros j q Hj Hq. apply (Hbefore (S j)); [lia|done].
Qed.

Lemma firstNamed_lt b sname l i :
  firstNamed b sname l = Some i → (i < length l)%nat.
Proof.
  intros (p & Hp & _)%firstNamed_Some. by eapply lookup_lt_Some.
Qed.

Lemma findStation_loop_firstNamed b sname l :
  findStation_loop b sname l = firstNamed b sname l ≫= (l !!.).
Proof.
  induction l as [|p l IH]; simpl; [done|].
  destruct (getName b p =? sname)%string; [done|].
  rewrite IH. by destruct (firstNamed b sname l).
Qed.

Lemma findStation_Some b sname p :
  findStation b sname = Some p ↔
  ∃ i, firstNamed b sname (items b) = Some i ∧ items b !! i = Some p.
Proof.
  unfold findStation. rewrite findStation_loop_firstNamed.
  destruct (firstNamed b sname (items b)) as [i|]; simpl.
  - split; [by exists i|]. by intros (j & [= <-] & ?).
  - split; [done|]. by intros (j & ? & ?).
Qed.

Lemma findStation_None b sname :
  findStation b sname = None ↔ firstNamed b sname (items b) = None.
Proof.
  unfold findStation. rewrite findStation_loop_firstNamed.
  destruct (firstNamed b sname (items b)) as [i|] eqn:Hi; simpl; [|done].
  apply firstNamed_lt, lookup_lt_is_Some in Hi as [p Hp].
  rewrite Hp. done.
Qed.

Lemma findStation_name b sname p :
  findStation b sname = Some p → getName b p = sname.
Proof.
  intros (i & Hi & Hp)%findStation_Some.
  apply firstNamed_Some in Hi as (q & Hq & Hn & _). congruence.
Qed.

Lemma getStationIndex_loop_firstNamed b sname l k :
  getStationIndex_loop b sname l k =
  match firstNamed b sname l with
  | Some i => k + Z.of_nat i
  | None => -1
  end.
Proof.
  revert k. induction l as [|p l IH]; intros k; simpl; [done|].
  destruct (getName b p =? sname)%string; [lia|].
  rewrite IH. destruct (firstNamed b sname l); simpl; lia.
Qed.

Lemma getStationIndex_firstNamed b sname :
  getStationIndex b sname =
  match firstNamed b sname (items b) with
  | Some i => Z.of_nat i
  | None => -1
  end.
Proof.
  unfold getStationIndex. rewrite getStationIndex_loop_firstNamed.
  by destruct (firstNamed b sname (items b)).
Qed.

Lemma LinkedList_remove_lt (i : nat) (l : list StationPtr) :
  (i < length l)%nat → LinkedList.remove (Z.of_nat i) l = (true, delete i l).
Proof.
  intros Hi. unfold LinkedList.remove.
  replace (0 <=? Z.of_nat i) with true by (symmetry; apply Z.leb_le; lia).
  replace (Z.of_nat i <? Z.of_nat (length l)) with true
    by (symmetry; apply Z.ltb_lt; lia).
  simpl. by rewrite Nat2Z.id.
Qed.

Lemma LinkedList_insert_front (p : StationPtr) (l : list StationPtr) :
  LinkedList.insert 0 p l = (true, p :: l).
Proof.
  unfold LinkedList.insert.
  replace (0 <=? Z.of_nat (length l)) with true by (symmetry; apply Z.leb_le; lia).
  simpl. by rewrite drop_0.
Qed.

Lemma LinkedList_insert_back (p : StationPtr) (l : list StationPtr) :
  LinkedList.insert (Z.of_nat (length l)) p l = (true, l ++ [p]).
Proof.
  unfold LinkedList.insert.
  replace (0 <=? Z.of_nat (length l)) with true by (symmetry; apply Z.leb_le; lia).
  rewrite Z.leb_refl. simpl.
  by rewrite Nat2Z.id, firstn_all, drop_all.
Qed.

Lemma removeStation_loop_firstNamed b sname pre entries :
  items b = pre ++ entries →
  removeStation_loop b sname (Z.of_nat (length pre)) entries =
  match firstNamed b sname entries with
  | Some j => (true, set_items (delete (length pre + j)%nat (items b)) b)
  | None => (false, b)
  end.
Proof.
  revert pre. induction entries as [|p rest IH]; intros pre Hit; simpl; [done|].
  destruct (getName b p =? sname)%string.
  - rewrite LinkedList_remove_lt.
    + by rewrite Nat.add_0_r.
    + rewrite Hit, length_app. simpl. lia.
  - replace (Z.of_nat (length pre) + 1) with (Z.of_nat (length (pre ++ [p])))
      by (rewrite length_app; simpl; lia).
    rewrite IH by (by rewrite <- app_assoc).
    destruct (firstNamed b sname rest) as [j|]; simpl; [|done].
    rewrite length_app. simpl. do 3 f_equal. lia.
Qed.

Lemma removeStation_firstNamed b sname :
  removeStation b sname =
  match firstNamed b sname (items b) with
  | Some j => (true, set_items (delete j (items b)) b)
  | None => (false, b)
  end.
Proof.
  unfold removeStation.
  apply (removeStation_loop_firstNamed b sname [] (items b) eq_refl).
Qed.

Lemma moveStationToFront_loop_firstNamed b sname l :
  moveStationToFront_loop b sname l =
  match firstNamed b sname l, firstNamed b sname (items b) with
  | Some j, Some i =>
      match l !! j with
      | Some p => (true, set_items (p :: delete i (items b)) b)
      | None => (false, b)
      end
  | Some j, None =>
      match l !! j with
      | Some p => (true, set_items (p :: items b) b)
      | None => (false, b)
      end
  | None, _ => (false, b)
  end.
Proof.
  induction l as [|p l IH]; simpl; [done|].
  destruct (String.eqb_spec (getName b p) sname) as [He|Hne].
  - simpl. rewrite getStationIndex_firstNamed, He.
    destruct (firstNamed b sname (items b)) as [i|] eqn:Hi.
    + rewrite LinkedList_remove_lt by (by eapply firstNamed_lt).
      by rewrite LinkedList_insert_front.
    + unfold LinkedList.remove. simpl. by rewrite LinkedList_insert_front.
  - rewrite IH. destruct (firstNamed b sname l) as [j|]; simpl; [|done]. done.
Qed.

(** ** moveStationToFront *)

Lemma moveStationToFront_firstNamed b sname :
  moveStationToFront b sname =
  match firstNamed b sname (items b) with
  | None => (false, b)
  | Some 0%nat => (true, b)
  | Some (S i) =>
      match items b !! S i with
      | Some p => (true, set_items (p :: delete (S i) (items b)) b)
      | None => (false, b)
      end
  end.
Proof.
  unfold moveStationToFront.
  destruct (findStation b sname) as [p|] eqn:Hf.
  - apply findStation_Some in Hf as (i & Hi & Hp).
    rewrite moveStationToFront_loop_firstNamed, Hi, Hp.
    destruct (items b) as [|head rest]; [done|].
    simpl in Hi.
    destruct (getName b head =? sname)%string.
    + by injection Hi as <-.
    + destruct (firstNamed b sname rest); simplify_eq/=. by rewrite Hp.
  - apply findStation_None in Hf. by rewrite Hf.
Qed.

(** C7. [moveStationToFront(name)] returns true and changes nothing when the
    station carrying the name is the head of the registry; returns false and
    changes nothing when no station carries the name; otherwise the first
    station carrying the name is taken out of its position and the same
    pointer is put at index 0.  In every case the station objects
    themselves (name, dishes, stock) are left as they were. *)
Theorem moveStationToFront_spec (b : Bistro) (sname : string) :
  (∀ head rest, items b = head :: rest → getName b head = sname →
     moveStationToFront b sname = (true, b)) ∧
  ((∀ p, p ∈ items b → getName b p ≠ sname) →
     moveStationToFront b sname = (false, b)) ∧
  (∀ i p, items b !! i = Some p → getName b p = sname →
     (∀ j q, (j < i)%nat → items b !! j = Some q → getName b q ≠ sname) →
     (0 < i)%nat →
     moveStationToFront b sname
       = (true, set_items (p :: delete i (items b)) b)) ∧
  station_at (snd (moveStationToFront b sname)) = station_at b.
Proof.
  rewrite moveStationToFront_firstNamed. split_and!.
  - intros head rest Hit Hn. rewrite Hit. simpl.
    by rewrite Hn, String.eqb_refl.
  - intros Habs. apply firstNamed_None in Habs. by rewrite Habs.
  - intros i p Hp Hn Hbefore Hi.
    rewrite (firstNamed_first b sname (items b) i p) by done.
    destruct i as [|i]; [lia|]. by rewrite Hp.
  - destruct (firstNamed b sname (items b)) as [[|i]|]; [done| |done].
    by destruct (items b !! S i).
Qed.

Lemma moveStationToFront_spec_witness :
  moveStationToFront Sample.kitchen "Grill Station" = (true, Sample.kitchen) ∧
  moveStationToFront Sample.kitchen "Salad Station" = (false, Sample.kitchen) ∧
  moveStationToFront Sample.kitchen "Pasta Station"
    = (true, set_items [3; 1; 2]%nat Sample.kitchen).
Proof.
  destruct (moveStationToFront_spec Sample.kitchen "Grill Station")
    as (Hfront & _).
  destruct (moveStationToFront_spec Sample.kitchen "Salad Station")
    as (_ & Habsent & _).
  destruct (moveStationToFront_spec Sample.kitchen "Pasta Station")
    as (_ & _ & Hmove & _).
  split_and!.
  - apply (Hfront 1%nat [2; 3]%nat); reflexivity.
  - apply Habsent. intros p Hp.
    repeat (apply elem_of_cons in Hp as [->|Hp]; [discriminate|]).
    by apply elem_of_nil in Hp.
  - apply (Hmove 2%nat 3%nat); [reflexivity|reflexivity| |lia].
    intros [|[|j]] q Hj Hq; simplify_eq/=; [discriminate|discriminate|lia].
Defined.

(** C8. Calling [moveStationToFront(X)] a second time changes nothing: the
    second call returns the state the first call left, so the registry
    order after two calls is the order after one. *)
Theorem moveStationToFront_idempotent (b : Bistro) (X : string) :
  snd (moveStationToFront (snd (moveStationToFront b X)) X)
    = snd (moveStationToFront b X) ∧
  items (snd (moveStationToFront (snd (moveStationToFront b X)) X))
    = items (snd (moveStationToFront b X)).
Proof.
  assert (snd (moveStationToFront (snd (moveStationToFront b X)) X)
          = snd (moveStationToFront b X)) as Heq; [|by rewrite Heq].
  rewrite (moveStationToFront_firstNamed b X).
  destruct (firstNamed b X (items b)) as [[|i]|] eqn:Hi; simpl.
  - rewrite moveStationToFront_firstNamed, Hi. done.
  - destruct (firstNamed_Some _ _ _ _ Hi) as (p & Hp & Hn & _).
    rewrite Hp. simpl.
    rewrite moveStationToFront_firstNamed. simpl.
    rewrite getName_set_items, Hn, String.eqb_refl. done.
  - rewrite moveStationToFront_firstNamed, Hi. done.
Qed.

(** ** Writes to a station through its pointer *)

Lemma station_at_assignAt p b d q :
  station_at (assignAt p b d) q =
  if decide (p = q)
  then mkStation (station_name_ (station_at b p))
                 (dishes_ (station_at b p) ++ [d])
                 (ingredients_stock_ (station_at b p))
  else station_at b q.
Proof. reflexivity. Qed.

Lemma station_at_replenishAt p b ing q :
  station_at (replenishAt p b ing) q =
  if decide (p = q)
  then mkStation (station_name_ (station_at b p))
                 (dishes_ (station_at b p))
                 (addIngredient (ingredients_stock_ (station_at b p)) ing)
  else station_at b q.
Proof. reflexivity. Qed.

Lemma fold_assignAt_station p ds b q :
  station_at (fold_left (assignAt p) ds b) q =
  if decide (p = q)
  then mkStation (station_name_ (station_at b p))
                 (dishes_ (station_at b p) ++ ds)
                 (ingredients_stock_ (station_at b p))
  else station_at b q.
Proof.
  revert b. induction ds as [|d ds IH]; intros b; simpl.
  - destruct (decide (p = q)) as [->|]; [|done].
    destruct (station_at b q). simpl. by rewrite app_nil_r.
  - rewrite IH, !station_at_assignAt.
    destruct (decide (p = p)) as [_|]; [simpl|done].
    destruct (decide (p = q)) as [->|Hne]; [|done].
    by rewrite <- app_assoc.
Qed.

Lemma fold_replenishAt_station p ings b q :
  station_at (fold_left (replenishAt p) ings b) q =
  if decide (p = q)
  then mkStation (station_name_ (station_at b p))
                 (dishes_ (station_at b p))
                 (fold_left addIngredient ings (ingredients_stock_ (station_at b p)))
  else station_at b q.
Proof.
  revert b. induction ings as [|i ings IH]; intros b; simpl.
  - destruct (decide (p = q)) as [->|]; [|done].
    by destruct (station_at b q).
  - rewrite IH, !station_at_replenishAt.
    destruct (decide (p = p)) as [_|]; [simpl|done].
    by destruct (decide (p = q)).
Qed.

Lemma fold_assignAt_rest p ds b :
  items (fold_left (assignAt p) ds b) = items b ∧
  dish_queue_ (fold_left (assignAt p) ds b) = dish_queue_ b ∧
  backup_ingredients_ (fold_left (assignAt p) ds b) = backup_ingredients_ b.
Proof.
  revert b. induction ds as [|d ds IH]; intros b; simpl; [done|].
  destruct (IH (assignAt p b d)) as (-> & -> & ->). done.
Qed.

Lemma fold_replenishAt_rest p ings b :
  items (fold_left (replenishAt p) ings b) = items b ∧
  dish_queue_ (fold_left (replenishAt p) ings b) = dish_queue_ b ∧
  backup_ingredients_ (fold_left (replenishAt p) ings b) = backup_ingredients_ b.
Proof.
  revert b. induction ings as [|i ings IH]; intros b; simpl; [done|].
  destruct (IH (replenishAt p b i)) as (-> & -> & ->). done.
Qed.

(** ** Ingredient lists *)

Lemma totalQuantity_addIngredient l ing n :
  totalQuantity (addIngredient l ing) n
  = totalQuantity l n + (if (name ing =? n)%string then quantity ing else 0).
Proof.
  induction l as [|i l IH]; simpl; [lia|].
  destruct (String.eqb_spec (name i) (name ing)) as [He|Hne]; simpl.
  - rewrite He. destruct (name ing =? n)%string; lia.
  - rewrite IH. lia.
Qed.

Lemma totalQuantity_fold_addIngredient ings l n :
  totalQuantity (fold_left addIngredient ings l) n
  = totalQuantity l n + totalQuantity ings n.
Proof.
  revert l. induction ings as [|i ings IH]; intros l; simpl; [lia|].
  rewrite IH, totalQuantity_addIngredient. lia.
Qed.

Lemma currentQuantity_addIngredient l ing n :
  currentQuantity (addIngredient l ing) n
  = currentQuantity l n + (if (name ing =? n)%string then quantity ing else 0).
Proof.
  induction l as [|i l IH]; simpl.
  - destruct (name ing =? n)%string; lia.
  - destruct (String.eqb_spec (name i) (name ing)) as [He|Hne]; simpl.
    + rewrite He. destruct (name ing =? n)%string; lia.
    + destruct (String.eqb_spec (name i) n) as [Hi|Hi].
      * destruct (String.eqb_spec (name ing) n); [congruence|lia].
      * apply IH.
Qed.

(** Adding a record keeps the records already there in place, under their
    names, and puts a record at the back exactly when the name is new. *)
Lemma addIngredient_shape l ing :
  (name ing ∈ (name <$> l) ∧ (name <$> addIngredient l ing) = (name <$> l)) ∨
  ((name ing ∉ (name <$> l)) ∧ addIngredient l ing = l ++ [ing]).
Proof.
  induction l as [|i l IH]; simpl.
  - right. split; [|done]. by intros ?%elem_of_nil.
  - destruct (String.eqb_spec (name i) (name ing)) as [He|Hne].
    + left. split; [rewrite He; left|done].
    + destruct IH as [[Hin Heq]|[Hnin Heq]].
      * left. split; [by right|]. rewrite fmap_cons. f_equal. exact Heq.
      * right. split; [|by rewrite Heq].
        intros [?|?]%elem_of_cons; [congruence|by apply Hnin].
Qed.

Lemma fold_addIngredient_shape ings l :
  ∃ updated appended,
    fold_left addIngredient ings l = updated ++ appended ∧
    (name <$> updated) = (name <$> l) ∧
    ∀ n, n ∈ (name <$> appended) ↔ n ∈ (name <$> ings) ∧ n ∉ (name <$> l).
Proof.
  revert l. induction ings as [|ing rest IH]; intros l.
  - exists l, []. simpl. rewrite app_nil_r. split_and!; [done|done|].
    intros n. split; [by intros ?%elem_of_nil|]. by intros [?%elem_of_nil _].
  - destruct (IH (addIngredient l ing)) as (upd & app & Hfold & Hnames & Happ).
    cbn [fold_left]. rewrite Hfold.
    destruct (addIngredient_shape l ing) as [[Hin Heq]|[Hnin Heq]].
    + exists upd, app. split_and!; [done|congruence|].
      intros n. rewrite Happ, Heq, fmap_cons, elem_of_cons.
      split; [tauto|]. intros [[->|Hn] Hnl]; [done|tauto].
    + rewrite Heq, fmap_app in Hnames. simpl in Hnames.
      apply fmap_app_inv in Hnames as (upd0 & x & Hupd0 & Hx & ->).
      exists upd0, (x ++ app). rewrite <- app_assoc.
      split_and!; [done|done|].
      intros n. rewrite fmap_app, elem_of_app, <- Hx, Happ, Heq.
      rewrite fmap_app, elem_of_app, fmap_cons, !elem_of_cons. simpl.
      rewrite !elem_of_cons, elem_of_nil.
      destruct (decide (n = name ing)) as [->|Hn]; [tauto|]. tauto.
Qed.

(** ** removeStation and mergeStations *)

Lemma removeStation_station_at b n :
  station_at (snd (removeStation b n)) = station_at b.
Proof.
  rewrite removeStation_firstNamed.
  by destruct (firstNamed b n (items b)).
Qed.

Lemma removeStation_names b n :
  stationNames (snd (removeStation b n)) `sublist_of` stationNames b.
Proof.
  rewrite removeStation_firstNamed. unfold stationNames.
  destruct (firstNamed b n (items b)) as [i|]; simpl; [|done].
  change (getName (set_items (delete i (items b)) b)) with (getName b).
  rewrite list_fmap_delete. apply sublist_delete.
Qed.

(** What a merge does when both names are found: [i2] is the position of
    the station removed. *)
Lemma mergeStations_found b n1 n2 p1 p2 :
  findStation b n1 = Some p1 → findStation b n2 = Some p2 →
  ∃ i2, firstNamed b n2 (items b) = Some i2 ∧ items b !! i2 = Some p2 ∧
    fst (mergeStations b n1 n2) = true ∧
    items (snd (mergeStations b n1 n2)) = delete i2 (items b) ∧
    dish_queue_ (snd (mergeStations b n1 n2)) = dish_queue_ b ∧
    backup_ingredients_ (snd (mergeStations b n1 n2)) = backup_ingredients_ b ∧
    (∀ q, q ≠ p1 → station_at (snd (mergeStations b n1 n2)) q = station_at b q) ∧
    station_at (snd (mergeStations b n1 n2)) p1 =
      mkStation (station_name_ (station_at b p1))
        (dishes_ (station_at b p1) ++ dishes_ (station_at b p2))
        (fold_left addIngredient (ingredients_stock_ (station_at b p2))
                   (ingredients_stock_ (station_at b p1))).
Proof.
  intros H1 H2. pose proof H2 as (i2 & Hi2 & Hp2)%findStation_Some.
  exists i2. unfold mergeStations. rewrite H1, H2.
  set (b1 := fold_left (assignAt p1) (dishes_ (station_at b p2)) b).
  set (b2 := fold_left (replenishAt p1) (ingredients_stock_ (station_at b1 p2)) b1).
  assert (ingredients_stock_ (station_at b1 p2)
          = ingredients_stock_ (station_at b p2)) as Hstock2.
  { unfold b1. rewrite fold_assignAt_station.
    by destruct (decide (p1 = p2)) as [->|]. }
  assert (∀ q, station_at b2 q =
     if decide (p1 = q)
     then mkStation (station_name_ (station_at b p1))
            (dishes_ (station_at b p1) ++ dishes_ (station_at b p2))
            (fold_left addIngredient (ingredients_stock_ (station_at b p2))
                       (ingredients_stock_ (station_at b p1)))
     else station_at b q) as Hat.
  { intros q. unfold b2. rewrite fold_replenishAt_station, Hstock2.
    unfold b1. rewrite !fold_assignAt_station.
    destruct (decide (p1 = p1)) as [_|]; [|done].
    by destruct (decide (p1 = q)). }
  assert (items b2 = items b ∧ dish_queue_ b2 = dish_queue_ b
          ∧ backup_ingredients_ b2 = backup_ingredients_ b) as (Hit & Hq & Hb).
  { unfold b2.
    destruct (fold_replenishAt_rest p1 (ingredients_stock_ (station_at b1 p2)) b1)
      as (-> & -> & ->).
    apply fold_assignAt_rest. }
  assert (∀ q, getName b2 q = getName b q) as Hnames.
  { intros q. unfold getName. rewrite Hat.
    by destruct (decide (p1 = q)) as [->|]. }
  rewrite removeStation_firstNamed, Hit, (firstNamed_ext b b2) by done.
  rewrite Hi2. simpl. split_and!; try done.
  - intros q Hq'. rewrite Hat. by destruct (decide (p1 = q)).
  - rewrite Hat. by destruct (decide (p1 = p1)).
Qed.

Lemma mergeStations_names b n1 n2 :
  stationNames (snd (mergeStations b n1 n2)) `sublist_of` stationNames b.
Proof.
  destruct (findStation b n1) as [p1|] eqn:H1;
    [destruct (findStation b n2) as [p2|] eqn:H2|].
  - destruct (mergeStations_found b n1 n2 p1 p2 H1 H2)
      as (i2 & _ & _ & _ & Hit & _ & _ & Hother & Hp1).
    unfold stationNames. rewrite Hit.
    rewrite (list_fmap_ext (getName (snd (mergeStations b n1 n2))) (getName b)).
    + rewrite list_fmap_delete. apply sublist_delete.
    + intros _ q _. unfold getName.
      destruct (decide (q = p1)) as [->|Hne]; [by rewrite Hp1|by rewrite Hother].
  - unfold mergeStations. by rewrite H1, H2.
  - unfold mergeStations. by rewrite H1.
Qed.

Lemma addStation_back b p :
  addStation b p = (true, set_items (items b ++ [p]) b).
Proof. unfold addStation. by rewrite LinkedList_insert_back. Qed.

(** One registry operation keeps the names distinct, provided an added
    station brings a name that is not registered. *)
Lemma applyOp_NoDup b op :
  NoDup (stationNames b) →
  match op with
  | OpAdd station => findStation b (getName b station) = None
  | _ => True
  end →
  NoDup (stationNames (applyOp b op)).
Proof.
  intros Hnd Hfresh. destruct op as [p|n|n1 n2]; simpl.
  - rewrite addStation_back. unfold stationNames. simpl.
    change (getName (set_items (items b ++ [p]) b)) with (getName b).
    rewrite fmap_app. apply list.NoDup_app. split_and!; [done| |apply NoDup_singleton].
    intros x Hx [->|[]%elem_of_nil]%elem_of_cons.
    apply list_elem_of_fmap in Hx as (q & Hq & Hin).
    apply findStation_None in Hfresh.
    by apply (proj1 (firstNamed_None _ _ _) Hfresh q).
  - exact (sublist_NoDup _ _ Hnd (removeStation_names b n)).
  - exact (sublist_NoDup _ _ Hnd (mergeStations_names b n1 n2)).
Qed.

(** C3 (as amended). Starting from an empty registry, after any sequence of
    [addStation], [removeStation] and [mergeStations] calls in which every
    station added carries a name that is not registered at that moment, no
    two registered stations share a name. *)
Theorem registry_names_unique (mem : StationPtr → KitchenStation)
    (ops : list RegistryOp) :
  addsFresh (emptyManager mem) ops →
  NoDup (stationNames (runOps (emptyManager mem) ops)).
Proof.
  assert (∀ b, NoDup (stationNames b) → addsFresh b ops →
               NoDup (stationNames (runOps b ops))) as Hgen.
  { induction ops as [|op ops IH]; intros b Hnd Hfresh; simpl; [done|].
    destruct Hfresh as [Hop Hrest].
    apply IH; [|done]. by apply applyOp_NoDup. }
  apply Hgen. apply NoDup_nil_2.
Qed.

Lemma registry_names_unique_witness :
  NoDup (stationNames
           (runOps (emptyManager Sample.mem)
                   [OpAdd 1%nat; OpAdd 2%nat; OpMerge "Oven Station" "Grill Station";
                    OpAdd 4%nat; OpRemove "Oven Station"])).
Proof.
  apply registry_names_unique. simpl. split_and!; reflexivity || exact I.
Defined.

(** C3 fails as stated: [addStation] appends whatever it is given, so two
    station objects carrying the same name can both be registered. *)
Lemma registry_names_unique_counterexample :
  stationNames (runOps (emptyManager Sample.mem) [OpAdd 1%nat; OpAdd 4%nat])
    = ["Grill Station"; "Grill Station"] ∧
  ¬ NoDup (stationNames (runOps (emptyManager Sample.mem) [OpAdd 1%nat; OpAdd 4%nat])).
Proof.
  split; [reflexivity|].
  intros Hnd. change (NoDup ["Grill Station"; "Grill Station"]) in Hnd.
  apply list.NoDup_cons in Hnd as [Hnin _]. apply Hnin. left.
Qed.

Lemma mergeStations_getName b n1 n2 q :
  getName (snd (mergeStations b n1 n2)) q = getName b q.
Proof.
  destruct (findStation b n1) as [p1|] eqn:H1;
    [destruct (findStation b n2) as [p2|] eqn:H2|].
  - destruct (mergeStations_found b n1 n2 p1 p2 H1 H2)
      as (i2 & _ & _ & _ & _ & _ & _ & Hother & Hp1).
    unfold getName.
    destruct (decide (q = p1)) as [->|Hne]; [by rewrite Hp1|by rewrite Hother].
  - unfold mergeStations. by rewrite H1, H2.
  - unfold mergeStations. by rewrite H1.
Qed.

Lemma firstNamed_delete b sname l i j :
  firstNamed b sname l = Some i → j ≠ i →
  firstNamed b sname (delete j l)
    = Some (if (j <? i)%nat then (i - 1)%nat else i).
Proof.
  revert i j. induction l as [|p l IH]; intros i j; simpl; [done|].
  destruct (String.eqb_spec (getName b p) sname) as [He|Hne].
  - intros [= <-] Hj. destruct j as [|j]; [done|]. simpl.
    apply String.eqb_eq in He. by rewrite He.
  - destruct (firstNamed b sname l) as [i'|] eqn:Hi'; simpl; [|done].
    intros [= <-] Hj. destruct j as [|j]; simpl.
    + rewrite Hi'. f_equal. lia.
    + apply String.eqb_neq in Hne. rewrite Hne.
      rewrite (IH i' j) by (done || lia). simpl. f_equal.
      change (S j <? S i')%nat with (j <? i')%nat.
      destruct (Nat.ltb_spec j i'); lia.
Qed.

Lemma NoDup_delete_lookup {A} (l : list A) i x :
  NoDup l → l !! i = Some x → x ∉ delete i l.
Proof.
  intros Hnd Hi. rewrite <- (take_drop_middle l i x Hi) in Hnd.
  apply list.NoDup_app in Hnd as (_ & Hpre & Hpost).
  apply list.NoDup_cons in Hpost as [Hpost _].
  rewrite delete_take_drop. intros [Hin|Hin]%elem_of_app; [|done].
  apply (Hpre x Hin). left.
Qed.

Lemma findStation_stationNames b sname p :
  findStation b sname = Some p → sname ∈ stationNames b.
Proof.
  intros Hf. pose proof (findStation_name _ _ _ Hf) as <-.
  apply findStation_Some in Hf as (i & _ & Hp).
  apply list_elem_of_fmap. exists p. split; [done|].
  by eapply list_elem_of_lookup_2.
Qed.


(** With distinct names, removing the first station carrying a name leaves
    no station carrying it. *)
Lemma firstNamed_delete_NoDup b sname i :
  NoDup (stationNames b) → firstNamed b sname (items b) = Some i →
  firstNamed b sname (delete i (items b)) = None.
Proof.
  intros Hnd Hi. apply firstNamed_None. intros q Hq Hn.
  apply firstNamed_Some in Hi as (p & Hp & Hpn & _).
  apply (NoDup_delete_lookup (stationNames b) i sname Hnd).
  - unfold stationNames. by rewrite list_lookup_fmap, Hp, <- Hpn.
  - unfold stationNames. rewrite <- list_fmap_delete.
    apply list_elem_of_fmap. by exists q.
Qed.

(** C10 (as amended). When a station named X is registered,
    [mergeStations(X, X)] returns true and takes that station (the first
    entry carrying the name) out of the registry; when no two registered
    stations share a name, no station named X is registered afterwards. *)
Theorem mergeStations_self_unregisters (b : Bistro) (X : string) (p : StationPtr) :
  findStation b X = Some p →
  fst (mergeStations b X X) = true ∧
  (∃ i, items b !! i = Some p ∧
        (∀ j q, (j < i)%nat → items b !! j = Some q → getName b q ≠ X) ∧
        items (snd (mergeStations b X X)) = delete i (items b)) ∧
  (NoDup (stationNames b) →
     findStation (snd (mergeStations b X X)) X = None ∧
     p ∉ items (snd (mergeStations b X X))).
Proof.
  intros Hf.
  destruct (mergeStations_found b X X p p Hf Hf)
    as (i & Hi & Hp & Hok & Hit & _).
  split_and!; [done| |].
  - exists i. split_and!; [done| |done].
    apply firstNamed_Some in Hi as (q & _ & _ & Hbefore). done.
  - intros Hnd.
    assert (firstNamed b X (items (snd (mergeStations b X X))) = None) as Hnone.
    { rewrite Hit. by apply firstNamed_delete_NoDup. }
    split.
    + apply findStation_None.
      rewrite (firstNamed_ext b); [done|]. apply mergeStations_getName.
    + intros Hin. apply (proj1 (firstNamed_None _ _ _) Hnone p Hin).
      by apply findStation_name.
Qed.

Lemma mergeStations_self_unregisters_witness :
  fst (mergeStations Sample.kitchen "Oven Station" "Oven Station") = true ∧
  items (snd (mergeStations Sample.kitchen "Oven Station" "Oven Station"))
    = [1; 3]%nat ∧
  findStation (snd (mergeStations Sample.kitchen "Oven Station" "Oven Station"))
    "Oven Station" = None.
Proof.
  destruct (mergeStations_self_unregisters Sample.kitchen "Oven Station" 2%nat)
    as (Hok & _ & Hgone); [reflexivity|].
  split_and!; [exact Hok|reflexivity|].
  apply Hgone. unfold stationNames. simpl.
  distinct_names.
Defined.

(** C10 fails as stated: [addStation] registers two stations under one
    name, and [mergeStations] of that name with itself then returns true but
    takes out the first of them only, so a station of that name is still
    registered; and a station registered twice stays registered once. *)
Lemma mergeStations_self_counterexample :
  (let b := runOps (emptyManager Sample.mem) [OpAdd 1%nat; OpAdd 4%nat] in
   findStation b "Grill Station" = Some 1%nat ∧
   fst (mergeStations b "Grill Station" "Grill Station") = true ∧
   items (snd (mergeStations b "Grill Station" "Grill Station")) = [4%nat] ∧
   findStation (snd (mergeStations b "Grill Station" "Grill Station"))
     "Grill Station" = Some 4%nat) ∧
  (let b := runOps (emptyManager Sample.mem) [OpAdd 2%nat; OpAdd 2%nat] in
   fst (mergeStations b "Oven Station" "Oven Station") = true ∧
   findStation (snd (mergeStations b "Oven Station" "Oven Station"))
     "Oven Station" = Some 2%nat) ∧
  ¬ (∀ b X p, findStation b X = Some p →
              fst (mergeStations b X X) = true ∧
              findStation (snd (mergeStations b X X)) X = None).
Proof.
  split; [repeat split|]. split; [repeat split|].
  intros H.
  destruct (H (runOps (emptyManager Sample.mem) [OpAdd 1%nat; OpAdd 4%nat])
              "Grill Station" 1%nat eq_refl) as [_ Hgone].
  discriminate Hgone.
Qed.

Lemma currentQuantity_absent l n :
  (n ∉ (name <$> l)) → currentQuantity l n = 0.
Proof.
  induction l as [|i l IH]; simpl; [done|].
  intros Hn. destruct (String.eqb_spec (name i) n) as [He|Hne].
  - destruct Hn. rewrite He. left.
  - apply IH. intros Hin. apply Hn. by right.
Qed.

Lemma currentQuantity_fold_addIngredient ings l n :
  NoDup (name <$> ings) →
  currentQuantity (fold_left addIngredient ings l) n
  = currentQuantity l n + currentQuantity ings n.
Proof.
  revert l. induction ings as [|i ings IH]; intros l Hnd; simpl; [lia|].
  rewrite fmap_cons in Hnd. apply list.NoDup_cons in Hnd as [Hnin Hnd].
  rewrite IH, currentQuantity_addIngredient by done.
  destruct (String.eqb_spec (name i) n) as [He|Hne]; [|lia].
  rewrite (currentQuantity_absent ings n); [lia|congruence].
Qed.

(** C6 (as amended). [mergeStations(A, B)] fails, changing nothing, when
    either name is absent.  Otherwise it succeeds and: A's dishes become
    A's followed by B's (duplicates kept); A's quantity of every ingredient
    becomes the sum of the two pre-merge quantities, A's own records staying
    in place and records being appended exactly for the ingredients only B
    held; the first entry named B is taken out of the registry, the other
    entries keeping their relative order, so that no station named B remains
    when the names are distinct.  When A and B are different stations, A is
    still registered, at the same index when it stood before B and one index
    lower when B stood before it. *)
Theorem mergeStations_spec (b : Bistro) (A B : string) :
  (findStation b A = None ∨ findStation b B = None →
     mergeStations b A B = (false, b)) ∧
  (∀ pA pB, findStation b A = Some pA → findStation b B = Some pB →
     fst (mergeStations b A B) = true ∧
     dishes_ (station_at (snd (mergeStations b A B)) pA)
       = dishes_ (station_at b pA) ++ dishes_ (station_at b pB) ∧
     (∀ n, totalQuantity
             (ingredients_stock_ (station_at (snd (mergeStations b A B)) pA)) n
           = totalQuantity (ingredients_stock_ (station_at b pA)) n
             + totalQuantity (ingredients_stock_ (station_at b pB)) n) ∧
     (NoDup (name <$> ingredients_stock_ (station_at b pB)) →
      ∀ n, currentQuantity
             (ingredients_stock_ (station_at (snd (mergeStations b A B)) pA)) n
           = currentQuantity (ingredients_stock_ (station_at b pA)) n
             + currentQuantity (ingredients_stock_ (station_at b pB)) n) ∧
     (∃ updated appended,
        ingredients_stock_ (station_at (snd (mergeStations b A B)) pA)
          = updated ++ appended ∧
        (name <$> updated) = (name <$> ingredients_stock_ (station_at b pA)) ∧
        ∀ n, n ∈ (name <$> appended) ↔
             n ∈ (name <$> ingredients_stock_ (station_at b pB)) ∧
             (n ∉ (name <$> ingredients_stock_ (station_at b pA)))) ∧
     (∀ q, q ≠ pA → station_at (snd (mergeStations b A B)) q = station_at b q) ∧
     (NoDup (stationNames b) →
        findStation (snd (mergeStations b A B)) B = None) ∧
     (∃ iB : nat,
        getStationIndex b B = Z.of_nat iB ∧
        items b !! iB = Some pB ∧
        items (snd (mergeStations b A B)) = delete iB (items b) ∧
        (pA ≠ pB →
         ∃ iA : nat,
           getStationIndex b A = Z.of_nat iA ∧
           findStation (snd (mergeStations b A B)) A = Some pA ∧
           getStationIndex (snd (mergeStations b A B)) A
             = (if (iA <? iB)%nat then Z.of_nat iA else Z.of_nat iA - 1)))).
Proof.
  split.
  - unfold mergeStations. intros [->| ->]; [done|].
    by destruct (findStation b A).
  - intros pA pB HA HB.
    destruct (mergeStations_found b A B pA pB HA HB)
      as (iB & HiB & HpB & Hok & Hit & _ & _ & Hother & HpA).
    rewrite HpA. simpl. split_and!; [done|done| | | |done| |].
    + intros n. apply totalQuantity_fold_addIngredient.
    + intros Hnd n. by apply currentQuantity_fold_addIngredient.
    + apply fold_addIngredient_shape.
    + intros Hnd. apply findStation_None.
      rewrite (firstNamed_ext b) by apply mergeStations_getName.
      rewrite Hit. by apply firstNamed_delete_NoDup.
    + exists iB. rewrite getStationIndex_firstNamed, HiB.
      split_and!; [done|done|done|]. intros Hne.
      pose proof HA as (iA & HiA & HpA')%findStation_Some.
      assert (iB ≠ iA) as Hi by congruence.
      assert (firstNamed (snd (mergeStations b A B)) A
                         (items (snd (mergeStations b A B)))
              = Some (if (iB <? iA)%nat then (iA - 1)%nat else iA)) as HiA'.
      { rewrite (firstNamed_ext b) by apply mergeStations_getName.
        rewrite Hit. by apply firstNamed_delete. }
      exists iA. rewrite !getStationIndex_firstNamed, HiA, HiA'.
      split_and!; [done| |].
      * apply findStation_Some. eexists. split; [exact HiA'|].
        rewrite Hit.
        destruct (Nat.ltb_spec iB iA).
        -- rewrite list_lookup_delete_ge by lia.
           by replace (S (iA - 1)) with iA by lia.
        -- rewrite list_lookup_delete_lt by lia. done.
      * destruct (Nat.ltb_spec iB iA), (Nat.ltb_spec iA iB); lia.
Qed.

Lemma mergeStations_spec_witness :
  mergeStations Sample.kitchen "Salad Station" "Grill Station"
    = (false, Sample.kitchen) ∧
  fst (mergeStations Sample.kitchen "Grill Station" "Oven Station") = true ∧
  dishes_ (station_at
             (snd (mergeStations Sample.kitchen "Grill Station" "Oven Station"))
             1%nat) = [11; 11]%nat ∧
  totalQuantity
    (ingredients_stock_
       (station_at
          (snd (mergeStations Sample.kitchen "Grill Station" "Oven Station"))
          1%nat)) "Chicken" = 5 ∧
  findStation (snd (mergeStations Sample.kitchen "Grill Station" "Oven Station"))
    "Oven Station" = None ∧
  getStationIndex
    (snd (mergeStations Sample.kitchen "Pasta Station" "Oven Station"))
    "Pasta Station" = 1.
Proof.
  destruct (mergeStations_spec Sample.kitchen "Salad Station" "Grill Station")
    as [Hfail _].
  destruct (mergeStations_spec Sample.kitchen "Grill Station" "Oven Station")
    as [_ Hmerge].
  destruct (Hmerge 1%nat 2%nat) as (Hok & Hdishes & Htotal & _ & _ & _ & Hgone & _);
    [reflexivity|reflexivity|].
  destruct (mergeStations_spec Sample.kitchen "Pasta Station" "Oven Station")
    as [_ Hmerge'].
  destruct (Hmerge' 3%nat 2%nat)
    as (_ & _ & _ & _ & _ & _ & _ & iB & HiB & _ & _ & Hindex);
    [reflexivity|reflexivity|].
  destruct Hindex as (iA & HiA & _ & Hafter); [lia|].
  split_and!.
  - apply Hfail. left. reflexivity.
  - exact Hok.
  - rewrite Hdishes. reflexivity.
  - rewrite Htotal. reflexivity.
  - apply Hgone. unfold stationNames. simpl. distinct_names.
  - rewrite Hafter.
    assert (iA = 2%nat) as -> by (apply Nat2Z.inj; rewrite <- HiA; reflexivity).
    assert (iB = 1%nat) as -> by (apply Nat2Z.inj; rewrite <- HiB; reflexivity).
    reflexivity.
Defined.

(** C6 fails as stated on the position of A: merging the station at index
    0 into the station at index 1 succeeds and moves the latter to index
    0; and merging a station into itself succeeds and leaves it at no index
    at all. *)
Lemma mergeStations_position_counterexample :
  (fst (mergeStations Sample.kitchen "Oven Station" "Grill Station") = true ∧
   getStationIndex Sample.kitchen "Oven Station" = 1 ∧
   getStationIndex
     (snd (mergeStations Sample.kitchen "Oven Station" "Grill Station"))
     "Oven Station" = 0) ∧
  (fst (mergeStations Sample.kitchen "Oven Station" "Oven Station") = true ∧
   getStationIndex
     (snd (mergeStations Sample.kitchen "Oven Station" "Oven Station"))
     "Oven Station" = -1) ∧
  ¬ (∀ b A B, fst (mergeStations b A B) = true →
              getStationIndex (snd (mergeStations b A B)) A
              = getStationIndex b A).
Proof.
  split_and!; try reflexivity.
  intros H.
  specialize (H Sample.kitchen "Oven Station" "Grill Station" eq_refl).
  discriminate H.
Qed.

(** ** The backup pool *)

Lemma totalQuantity_app l1 l2 n :
  totalQuantity (l1 ++ l2) n = totalQuantity l1 n + totalQuantity l2 n.
Proof. induction l1 as [|i l1 IH]; simpl; [done|]. rewrite IH. lia. Qed.

Lemma currentQuantity_app_absent l1 l2 n :
  (n ∉ (name <$> l1)) → currentQuantity (l1 ++ l2) n = currentQuantity l2 n.
Proof.
  induction l1 as [|i l1 IH]; simpl; [done|]. intros Hn.
  destruct (String.eqb_spec (name i) n) as [He|Hne].
  - destruct Hn. rewrite He. left.
  - apply IH. intros Hin. apply Hn. by right.
Qed.

(** A successful scan of the pool stops at the first record [r] carrying
    the name, which holds at least [qty]; [r] is decremented by [qty], and
    erased when that leaves zero. *)
Lemma withdraw_loop_Some pool iname qty r' pool' :
  withdraw_loop pool iname qty = Some (r', pool') →
  ∃ pre r post,
    pool = pre ++ r :: post ∧ name r = iname ∧ (iname ∉ (name <$> pre)) ∧
    qty ≤ quantity r ∧
    r' = mkIngredient iname qty 0 (price r) ∧
    pool' = pre ++ (if quantity r - qty =? 0 then post
                    else withdrawn qty r :: post).
Proof.
  revert r' pool'. induction pool as [|it rest IH]; intros r' pool'; simpl; [done|].
  destruct (String.eqb_spec (name it) iname) as [He|Hne].
  - destruct (Z.leb_spec qty (quantity it)) as [Hle|Hgt]; [|done].
    intros [= <- <-]. exists [], it, rest.
    split_and!; [done|done|by intros ?%elem_of_nil|done|done|done].
  - destruct (withdraw_loop rest iname qty) as [[r1 rest1]|] eqn:Hw; [|done].
    intros [= <- <-].
    destruct (IH r1 rest1 eq_refl) as (pre & r & post & -> & Hn & Hpre & Hq & Hr & ->).
    exists (it :: pre), r, post. split_and!; try done.
    rewrite fmap_cons. intros [?|?]%elem_of_cons; [congruence|done].
Qed.

(** The scan fails exactly when no record carries the name or the first
    one that does holds less than [qty]. *)
Lemma withdraw_loop_None pool iname qty :
  withdraw_loop pool iname qty = None ↔
  (iname ∉ (name <$> pool)) ∨ currentQuantity pool iname < qty.
Proof.
  induction pool as [|it rest IH]; simpl.
  - split; [|done]. intros _. left. by intros ?%elem_of_nil.
  - destruct (String.eqb_spec (name it) iname) as [He|Hne].
    + destruct (Z.leb_spec qty (quantity it)) as [Hle|Hgt].
      * split; [done|]. intros [Hn|Hlt]; [|lia]. destruct Hn. rewrite He. left.
      * split; [|done]. intros _. by right.
    + destruct (withdraw_loop rest iname qty) as [[r1 rest1]|] eqn:Hw.
      * split; [done|]. intros H.
        assert (Some (r1, rest1) = None) as [=]. apply IH.
        destruct H as [Hn|Hlt]; [left|by right].
        intros Hin. apply Hn. by right.
      * split; [|done]. intros _.
        destruct (proj1 IH eq_refl) as [Hn|Hlt]; [left|by right].
        intros [?|?]%elem_of_cons; [congruence|done].
Qed.

Lemma replenish_from_backup_false b sname iname qty :
  fst (replenishStationIngredientFromBackup b sname iname qty) = false →
  replenishStationIngredientFromBackup b sname iname qty = (false, b).
Proof.
  unfold replenishStationIngredientFromBackup.
  destruct (qty <=? 0); [done|].
  destruct (findStation b sname); [|done].
  by destruct (withdraw_loop (backup_ingredients_ b) iname qty) as [[r pool']|].
Qed.

(** What a successful replenishment from the backup does. *)
Lemma replenish_from_backup_true b sname iname qty :
  fst (replenishStationIngredientFromBackup b sname iname qty) = true →
  ∃ station pre r post,
    0 < qty ∧ findStation b sname = Some station ∧
    backup_ingredients_ b = pre ++ r :: post ∧
    name r = iname ∧ (iname ∉ (name <$> pre)) ∧ qty ≤ quantity r ∧
    snd (replenishStationIngredientFromBackup b sname iname qty)
    = set_backup
        (pre ++ (if quantity r - qty =? 0 then post else withdrawn qty r :: post))
        (replenishAt station b (mkIngredient iname qty 0 (price r))).
Proof.
  unfold replenishStationIngredientFromBackup.
  destruct (Z.leb_spec qty 0) as [|Hpos]; [done|].
  destruct (findStation b sname) as [station|]; [|done].
  destruct (withdraw_loop (backup_ingredients_ b) iname qty)
    as [[r' pool']|] eqn:Hw; [|done].
  intros _.
  apply withdraw_loop_Some in Hw as (pre & r & post & Hpool & Hn & Hpre & Hq & -> & ->).
  exists station, pre, r, post. done.
Qed.

(** C4. [replenishStationIngredientFromBackup] returns false when the
    quantity asked is not positive, when no record of the backup pool
    carries the ingredient name, and when the pool's record for the name
    holds less than the quantity asked; whenever it returns false, the
    backup pool and every station object are as before.  It returns true
    when the quantity is positive, the station is registered and the pool's
    record holds enough; and when it returns true, that record has lost
    exactly the quantity asked, its other fields and the other records being
    untouched, and it is erased when this leaves exactly zero. *)
Theorem replenishFromBackup_spec (b : Bistro) (sname iname : string) (qty : Z) :
  (qty ≤ 0 →
     replenishStationIngredientFromBackup b sname iname qty = (false, b)) ∧
  ((iname ∉ (name <$> backup_ingredients_ b)) →
     replenishStationIngredientFromBackup b sname iname qty = (false, b)) ∧
  (currentQuantity (backup_ingredients_ b) iname < qty →
     replenishStationIngredientFromBackup b sname iname qty = (false, b)) ∧
  (fst (replenishStationIngredientFromBackup b sname iname qty) = false →
     snd (replenishStationIngredientFromBackup b sname iname qty) = b) ∧
  (0 < qty → is_Some (findStation b sname) →
   iname ∈ (name <$> backup_ingredients_ b) →
   qty ≤ currentQuantity (backup_ingredients_ b) iname →
     fst (replenishStationIngredientFromBackup b sname iname qty) = true) ∧
  (fst (replenishStationIngredientFromBackup b sname iname qty) = true →
     ∃ pre r post,
       backup_ingredients_ b = pre ++ r :: post ∧
       name r = iname ∧ (iname ∉ (name <$> pre)) ∧ qty ≤ quantity r ∧
       backup_ingredients_
         (snd (replenishStationIngredientFromBackup b sname iname qty))
       = pre ++ (if quantity r - qty =? 0 then post
                 else withdrawn qty r :: post)).
Proof.
  split_and!.
  - intros Hq. unfold replenishStationIngredientFromBackup.
    by destruct (Z.leb_spec qty 0); [|lia].
  - intros Hn. apply replenish_from_backup_false.
    unfold replenishStationIngredientFromBackup.
    destruct (qty <=? 0); [done|]. destruct (findStation b sname); [|done].
    rewrite (proj2 (withdraw_loop_None _ _ _)); [done|by left].
  - intros Hlt. apply replenish_from_backup_false.
    unfold replenishStationIngredientFromBackup.
    destruct (qty <=? 0); [done|]. destruct (findStation b sname); [|done].
    rewrite (proj2 (withdraw_loop_None _ _ _)); [done|by right].
  - intros Hf. by rewrite (replenish_from_backup_false _ _ _ _ Hf).
  - intros Hq [station Hs] Hin Hle.
    unfold replenishStationIngredientFromBackup.
    destruct (Z.leb_spec qty 0); [lia|]. rewrite Hs.
    destruct (withdraw_loop (backup_ingredients_ b) iname qty)
      as [[r' pool']|] eqn:Hw; [done|].
    apply withdraw_loop_None in Hw as [Hn|Hlt]; [done|lia].
  - intros Ht.
    destruct (replenish_from_backup_true _ _ _ _ Ht)
      as (station & pre & r & post & _ & _ & Hpool & Hn & Hpre & Hq & ->).
    exists pre, r, post. done.
Qed.

Lemma replenishFromBackup_spec_witness :
  replenishStationIngredientFromBackup (Sample.scenario 10) "Grill Station" "Chicken" 0
    = (false, Sample.scenario 10) ∧
  replenishStationIngredientFromBackup (Sample.scenario 10) "Grill Station" "Beef" 1
    = (false, Sample.scenario 10) ∧
  replenishStationIngredientFromBackup (Sample.scenario 10) "Grill Station" "Chicken" 11
    = (false, Sample.scenario 10) ∧
  fst (replenishStationIngredientFromBackup (Sample.scenario 10)
         "Grill Station" "Chicken" 3) = true ∧
  backup_ingredients_
    (snd (replenishStationIngredientFromBackup (Sample.scenario 10)
            "Grill Station" "Chicken" 3)) = [Sample.chicken 7] ∧
  backup_ingredients_
    (snd (replenishStationIngredientFromBackup (Sample.scenario 10)
            "Grill Station" "Chicken" 10)) = [].
Proof.
  destruct (replenishFromBackup_spec (Sample.scenario 10) "Grill Station" "Chicken" 0)
    as (Hnonpos & _).
  destruct (replenishFromBackup_spec (Sample.scenario 10) "Grill Station" "Beef" 1)
    as (_ & Habsent & _).
  destruct (replenishFromBackup_spec (Sample.scenario 10) "Grill Station" "Chicken" 11)
    as (_ & _ & Hshort & _).
  destruct (replenishFromBackup_spec (Sample.scenario 10) "Grill Station" "Chicken" 3)
    as (_ & _ & _ & _ & Hok & Hpool).
  assert (fst (replenishStationIngredientFromBackup (Sample.scenario 10)
                 "Grill Station" "Chicken" 3) = true) as Htrue.
  { apply Hok; [lia|by eexists|left|simpl; lia]. }
  split_and!.
  - apply Hnonpos. lia.
  - apply Habsent. intros Hin.
    repeat (apply elem_of_cons in Hin as [Hin|Hin]; [discriminate|]).
    by apply elem_of_nil in Hin.
  - apply Hshort. simpl. lia.
  - exact Htrue.
  - destruct (Hpool Htrue) as (pre & r & post & _). reflexivity.
  - reflexivity.
Defined.

(** C5. A successful [replenishStationIngredientFromBackup(station, name, q)]
    is zero-sum: the quantity of the ingredient in the backup pool goes down
    by exactly [q] and the quantity in the station's stock goes up by
    exactly [q] (read as the sum over the records carrying the name, and
    also as the record the code reads; for the pool the latter needs the
    pool's names to be distinct); the quantities of the other ingredients
    and the other station objects are unchanged. *)
Theorem replenishFromBackup_zero_sum (b : Bistro) (sname iname : string)
    (q : Z) (station : StationPtr) :
  fst (replenishStationIngredientFromBackup b sname iname q) = true →
  findStation b sname = Some station →
  let b' := snd (replenishStationIngredientFromBackup b sname iname q) in
  totalQuantity (backup_ingredients_ b') iname + q
    = totalQuantity (backup_ingredients_ b) iname ∧
  totalQuantity (ingredients_stock_ (station_at b' station)) iname
    = totalQuantity (ingredients_stock_ (station_at b station)) iname + q ∧
  currentQuantity (ingredients_stock_ (station_at b' station)) iname
    = currentQuantity (ingredients_stock_ (station_at b station)) iname + q ∧
  (NoDup (name <$> backup_ingredients_ b) →
     currentQuantity (backup_ingredients_ b') iname + q
       = currentQuantity (backup_ingredients_ b) iname) ∧
  (∀ n, n ≠ iname →
     totalQuantity (backup_ingredients_ b') n
       = totalQuantity (backup_ingredients_ b) n ∧
     totalQuantity (ingredients_stock_ (station_at b' station)) n
       = totalQuantity (ingredients_stock_ (station_at b station)) n) ∧
  (∀ p, p ≠ station → station_at b' p = station_at b p).
Proof.
  intros Ht Hs b'. subst b'.
  destruct (replenish_from_backup_true _ _ _ _ Ht)
    as (station' & pre & r & post & Hq & Hs' & Hpool & Hn & Hpre & Hle & ->).
  assert (station' = station) as -> by congruence.
  unfold set_backup, replenishAt, set_station.
  cbn [backup_ingredients_ station_at].
  rewrite fn_lookup_insert.
  unfold KitchenStation.replenishStationIngredients. cbn [ingredients_stock_].
  rewrite Hpool, !totalQuantity_app, !currentQuantity_app_absent by done.
  rewrite totalQuantity_addIngredient, currentQuantity_addIngredient. simpl.
  rewrite String.eqb_refl.
  assert ((name r =? iname)%string = true) as Hr by by apply String.eqb_eq.
  split_and!.
  - destruct (Z.eqb_spec (quantity r - q) 0); simpl; rewrite Hr; lia.
  - done.
  - done.
  - intros Hnd.
    destruct (Z.eqb_spec (quantity r - q) 0); simpl; rewrite Hr; [|lia].
    rewrite currentQuantity_absent; [lia|].
    rewrite fmap_app, fmap_cons in Hnd.
    apply list.NoDup_app in Hnd as (_ & _ & Hnd).
    apply list.NoDup_cons in Hnd as [Hnin _]. by rewrite Hn in Hnin.
  - intros n Hne.
    assert ((name r =? n)%string = false) as Hrn
      by (apply String.eqb_neq; congruence).
    assert ((iname =? n)%string = false) as Hin
      by (apply String.eqb_neq; congruence).
    rewrite !totalQuantity_app, totalQuantity_addIngredient. simpl.
    rewrite Hin, Hrn.
    split; [|lia].
    destruct (Z.eqb_spec (quantity r - q) 0); simpl; rewrite ?Hrn; lia.
  - intros p Hp. by rewrite fn_lookup_insert_ne.
Qed.

Lemma replenishFromBackup_zero_sum_witness :
  totalQuantity
    (backup_ingredients_
       (snd (replenishStationIngredientFromBackup (Sample.scenario 10)
               "Oven Station" "Chicken" 4))) "Chicken" + 4 = 10 ∧
  totalQuantity
    (ingredients_stock_
       (station_at
          (snd (replenishStationIngredientFromBackup (Sample.scenario 10)
                  "Oven Station" "Chicken" 4)) 2%nat)) "Chicken" = 5 + 4.
Proof.
  destruct (replenishFromBackup_zero_sum (Sample.scenario 10)
              "Oven Station" "Chicken" 4 2%nat eq_refl eq_refl)
    as (Hpool & Hstation & _).
  split; [exact Hpool|exact Hstation].
Defined.

(** ** The dispatch pass: the queue *)

Lemma unresolved_sublist (queue : list DishPtr) outcomes :
  unresolved queue outcomes `sublist_of` queue.
Proof.
  revert outcomes. induction queue as [|d queue IH]; intros [|r rs]; simpl;
    try apply sublist_nil_l.
  destruct r; [apply sublist_cons, IH|apply sublist_skip, IH].
Qed.


Section DispatchQueue.

Variable dish_at : DishPtr → Dish.
Variable canCompleteOrder : KitchenStation → string → bool.
Variable prepareDish : KitchenStation → string → bool * KitchenStation.


(** The queue loop puts aside, behind what was already put aside, exactly
    the entries whose walk failed. *)
Lemma processQueue_temp_queue queue temp_queue b :
  fst (fst (processQueue dish_at canCompleteOrder prepareDish queue temp_queue b))
  = temp_queue
    ++ unresolved queue
         (dishOutcomes dish_at canCompleteOrder prepareDish queue b).
Proof.
  revert temp_queue b.
  induction queue as [|d queue IH]; intros temp_queue b; simpl.
  - by rewrite app_nil_r.
  - unfold dishOutcome. simpl.
    destruct (walkStations dish_at canCompleteOrder prepareDish d
                (items b) (set_dish_queue queue b))
      as [[r b'] out].
    specialize (IH (if r then temp_queue else temp_queue ++ [d]) b').
    destruct (processQueue dish_at canCompleteOrder prepareDish queue
                (if r then temp_queue else temp_queue ++ [d]) b')
      as [[tq b''] out'].
    simpl in *. rewrite IH. destruct r; [done|]. by rewrite <- app_assoc.
Qed.


End DispatchQueue.


(** ** The dispatch pass: replenishment *)

Create HintDb bistro.
#[local] Hint Constructors Replenishment : bistro.

(** Everything a successful replenishment from the backup changes. *)
Lemma replenish_from_backup_effect b sname iname q b' station :
  replenishStationIngredientFromBackup b sname iname q = (true, b') →
  findStation b sname = Some station →
  0 < q ∧
  items b' = items b ∧ dish_queue_ b' = dish_queue_ b ∧
  (∀ p, getName b' p = getName b p) ∧
  (∀ p, p ≠ station → station_at b' p = station_at b p) ∧
  (∀ n, totalQuantity (backup_ingredients_ b') n
        = totalQuantity (backup_ingredients_ b) n
          - (if (iname =? n)%string then q else 0)) ∧
  (∀ n, totalQuantity (ingredients_stock_ (station_at b' station)) n
        = totalQuantity (ingredients_stock_ (station_at b station)) n
          + (if (iname =? n)%string then q else 0)).
Proof.
  intros Hr Hs.
  assert (fst (replenishStationIngredientFromBackup b sname iname q) = true)
    as Ht by by rewrite Hr.
  destruct (replenish_from_backup_true _ _ _ _ Ht)
    as (station' & pre & r & post & Hq & Hs' & Hpool & Hn & Hpre & Hle & Heq).
  assert (station' = station) as -> by congruence.
  rewrite Hr in Heq. simpl in Heq. subst b'.
  unfold set_backup, replenishAt, set_station, getName.
  cbn [backup_ingredients_ station_at items dish_queue_].
  split_and!; [done|done|done| | | |].
  - intros p. destruct (decide (station = p)) as [->|Hne].
    + by rewrite fn_lookup_insert.
    + by rewrite fn_lookup_insert_ne.
  - intros p Hp. by rewrite fn_lookup_insert_ne.
  - intros n. rewrite Hpool, !totalQuantity_app.
    destruct (Z.eqb_spec (quantity r - q) 0); simpl; rewrite Hn;
      destruct (iname =? n)%string; lia.
  - intros n. rewrite fn_lookup_insert. simpl.
    by rewrite totalQuantity_addIngredient.
Qed.

(** The replenishment loop does what the specification describes. *)
Lemma replenishLoop_Replenishment station ingredients b :
  Replenishment station ingredients b
    (replenishLog station ingredients b)
    (fst (replenishLoop station ingredients b))
    (snd (replenishLoop station ingredients b)).
Proof.
  revert b. induction ingredients as [|ing rest IH]; intros b; simpl.
  - constructor.
  - fold (shortfall station b ing).
    destruct (Z.ltb_spec 0 (shortfall station b ing)) as [Hpos|Hle].
    + destruct (replenishStationIngredientFromBackup b (getName b station)
                  (name ing) (shortfall station b ing)) as [ok b1] eqn:Hr.
      destruct ok.
      * eapply Replenishment_withdrawn; [done|exact Hr|apply IH].
      * assert (b1 = b) as ->.
        { pose proof (replenish_from_backup_false b (getName b station)
                        (name ing) (shortfall station b ing)) as Hf.
          rewrite Hr in Hf. by injection (Hf eq_refl). }
        simpl. by apply Replenishment_aborted.
    + apply Replenishment_covered; [done|apply IH].
Qed.





(** ** The dispatch pass: one station *)

Section DispatchVisit.

Variable dish_at : DishPtr → Dish.
Variable canCompleteOrder : KitchenStation → string → bool.
Variable prepareDish : KitchenStation → string → bool * KitchenStation.

Local Abbreviation visit := (visitStation dish_at canCompleteOrder prepareDish).
Local Abbreviation walk := (walkStations dish_at canCompleteOrder prepareDish).




End DispatchVisit.



(** ** The scenario of section 8 of the specification *)

(** With ten chickens in the backup pool the grill is replenished and
    prepares the dish: nine chickens are left in the pool, none at the
    grill, and the queue is empty. *)
Example scenario_pool_10 :
  let b' := fst (processAllDishes Sample.dish_at
                   (Reference.canCompleteOrder Sample.dish_at)
                   (Reference.prepareDish Sample.dish_at) (Sample.scenario 10)) in
  dish_queue_ b' = [] ∧
  backup_ingredients_ b' = [Sample.chicken 9] ∧
  ingredients_stock_ (station_at b' 1%nat) = [Sample.chicken 0] ∧
  ingredients_stock_ (station_at b' 2%nat) = [Sample.chicken 5].
Proof. repeat split. Qed.

(** With an empty record in the pool the grill fails, the oven prepares the
    dish from its own stock and the pool is unchanged. *)
Example scenario_pool_0 :
  let b' := fst (processAllDishes Sample.dish_at
                   (Reference.canCompleteOrder Sample.dish_at)
                   (Reference.prepareDish Sample.dish_at) (Sample.scenario 0)) in
  dish_queue_ b' = [] ∧
  backup_ingredients_ b' = [Sample.chicken 0] ∧
  ingredients_stock_ (station_at b' 1%nat) = [Sample.chicken 0] ∧
  ingredients_stock_ (station_at b' 2%nat) = [Sample.chicken 4].
Proof. repeat split. Qed.

(** The lines printed for the first scenario. *)
Example scenario_pool_10_output :
  snd (processAllDishes Sample.dish_at
         (Reference.canCompleteOrder Sample.dish_at)
         (Reference.prepareDish Sample.dish_at) (Sample.scenario 10))
  = ["PREPARING DISH: Grilled Chicken";
     "Grill Station attempting to prepare Grilled Chicken...";
     "Grill Station: Insufficient ingredients. Replenishing ingredients...";
     "Grill Station: Ingredients replenished.";
     "Grill Station: Successfully prepared Grilled Chicken.";
     (LF ++ LF ++ "All dishes have been processed.")%string].
Proof. reflexivity. Qed.

(** A paella needs rice and shrimp; the pool holds rice only.  The rice
    withdrawn before the shrimp withdrawal failed stays at the station, the
    pool stays one rice short and the dish stays queued. *)
Example seafood_withdrawal_kept :
  let b' := fst (processAllDishes Sample.dish_at
                   (Reference.canCompleteOrder Sample.dish_at)
                   (Reference.prepareDish Sample.dish_at) Sample.seafood) in
  dish_queue_ b' = [12%nat] ∧
  backup_ingredients_ b' = [Sample.rice 3] ∧
  ingredients_stock_ (station_at b' 5%nat) = [Sample.rice 2].
Proof. repeat split. Qed.

(** * Further properties of the manager *)

(** ** Looking stations up *)

Lemma findStation_loop_app b sname l1 l2 :
  findStation_loop b sname (l1 ++ l2) =
  match findStation_loop b sname l1 with
  | Some p => Some p
  | None => findStation_loop b sname l2
  end.
Proof.
  induction l1 as [|p l1 IH]; simpl; [done|].
  by destruct (getName b p =? sname)%string.
Qed.

(** Taking out an entry that carries another name does not change what a
    scan for [sname] finds. *)
Lemma findStation_loop_delete_other b sname l i p :
  l !! i = Some p → getName b p ≠ sname →
  findStation_loop b sname (delete i l) = findStation_loop b sname l.
Proof.
  revert i. induction l as [|q l IH]; intros i; [done|].
  destruct i as [|i]; simpl.
  - intros [= ->] Hne. apply String.eqb_neq in Hne. by rewrite Hne.
  - intros Hp Hne. destruct (getName b q =? sname)%string; [done|].
    by apply IH.
Qed.

Lemma findStation_loop_ext b b' sname l :
  (∀ p, getName b' p = getName b p) →
  findStation_loop b' sname l = findStation_loop b sname l.
Proof.
  intros Hn. induction l as [|p l IH]; simpl; [done|]. by rewrite Hn, IH.
Qed.

Lemma findStation_set_items b l sname :
  findStation (set_items l b) sname = findStation_loop b sname l.
Proof. unfold findStation. simpl. by apply findStation_loop_ext. Qed.

(** X1. [findStation] and [getStationIndex] agree: the index lies between
    -1 and the registry length; it is -1 exactly when [findStation] finds
    nothing; otherwise the entry at that index is the station found, it
    carries the name, and no entry before it does. *)
Theorem findStation_getStationIndex (b : Bistro) (sname : string) :
  -1 ≤ getStationIndex b sname < Z.of_nat (length (items b)) ∧
  (findStation b sname = None ↔ getStationIndex b sname = -1) ∧
  (findStation b sname = None ↔ ∀ p, p ∈ items b → getName b p ≠ sname) ∧
  (∀ p, findStation b sname = Some p ↔
        0 ≤ getStationIndex b sname ∧
        items b !! Z.to_nat (getStationIndex b sname) = Some p) ∧
  (∀ p, findStation b sname = Some p →
        getName b p = sname ∧
        ∀ j q, (j < Z.to_nat (getStationIndex b sname))%nat →
               items b !! j = Some q → getName b q ≠ sname).
Proof.
  rewrite getStationIndex_firstNamed.
  destruct (firstNamed b sname (items b)) as [i|] eqn:Hi.
  - pose proof (firstNamed_lt _ _ _ _ Hi) as Hlt.
    pose proof (firstNamed_Some _ _ _ _ Hi) as (q & Hq & Hn & Hbefore).
    assert (findStation b sname = Some q) as Hf
      by (apply findStation_Some; by exists i).
    rewrite Nat2Z.id, Hf. split_and!.
    + lia.
    + lia.
    + split; [done|lia].
    + split; [done|]. intros Habs. by destruct (Habs q (list_elem_of_lookup_2 _ _ _ Hq)).
    + intros p. split; [intros [= <-]; split; [lia|done]|].
      intros [_ Hp]. congruence.
    + intros p [= <-]. done.
  - pose proof (proj2 (findStation_None b sname) Hi) as Hf. rewrite Hf.
    split_and!; [lia|lia|done| |split; [done|intros [? _]; lia]|done].
    split; [intros _; by apply firstNamed_None|done].
Qed.

Lemma findStation_getStationIndex_witness :
  findStation Sample.kitchen "Pasta Station" = Some 3%nat ∧
  getStationIndex Sample.kitchen "Pasta Station" = 2 ∧
  getStationIndex Sample.kitchen "Salad Station" = -1.
Proof.
  destruct (findStation_getStationIndex Sample.kitchen "Pasta Station")
    as (_ & _ & _ & Hsome & _).
  destruct (findStation_getStationIndex Sample.kitchen "Salad Station")
    as (_ & Hnone & _).
  split_and!.
  - apply Hsome. split; [by vm_compute|reflexivity].
  - reflexivity.
  - apply Hnone. reflexivity.
Defined.

(** ** removeStation *)

(** X2. [removeStation(name)] returns true exactly when the name is
    registered.  When it is not, nothing changes; when it is, the entry at
    [getStationIndex(name)] and only that entry is taken out, the registry
    is one shorter, the other entries keep their order, and the station
    objects, the queue and the pool are untouched. *)
Theorem removeStation_spec (b : Bistro) (sname : string) :
  (fst (removeStation b sname) = true ↔ is_Some (findStation b sname)) ∧
  (findStation b sname = None → removeStation b sname = (false, b)) ∧
  (∀ p, findStation b sname = Some p →
     removeStation b sname
       = (true, set_items (delete (Z.to_nat (getStationIndex b sname)) (items b)) b) ∧
     items b !! Z.to_nat (getStationIndex b sname) = Some p ∧
     S (length (items (snd (removeStation b sname)))) = length (items b) ∧
     items (snd (removeStation b sname)) `sublist_of` items b) ∧
  station_at (snd (removeStation b sname)) = station_at b ∧
  dish_queue_ (snd (removeStation b sname)) = dish_queue_ b ∧
  backup_ingredients_ (snd (removeStation b sname)) = backup_ingredients_ b.
Proof.
  rewrite removeStation_firstNamed, getStationIndex_firstNamed.
  destruct (firstNamed b sname (items b)) as [i|] eqn:Hi.
  - pose proof (firstNamed_lt _ _ _ _ Hi) as Hlt.
    pose proof (firstNamed_Some _ _ _ _ Hi) as (q & Hq & _).
    assert (findStation b sname = Some q) as Hf
      by (apply findStation_Some; by exists i).
    rewrite Hf, Nat2Z.id. simpl. split_and!; try done.
    intros p [= <-]. split_and!; [done|done| |apply sublist_delete].
    rewrite length_delete by by eexists. lia.
  - rewrite (proj2 (findStation_None b sname) Hi). simpl.
    split_and!; done.
Qed.

Lemma removeStation_spec_witness :
  removeStation Sample.kitchen "Salad Station" = (false, Sample.kitchen) ∧
  removeStation Sample.kitchen "Oven Station"
    = (true, set_items [1; 3]%nat Sample.kitchen).
Proof.
  destruct (removeStation_spec Sample.kitchen "Salad Station")
    as (_ & Habsent & _).
  destruct (removeStation_spec Sample.kitchen "Oven Station")
    as (_ & _ & Hfound & _).
  split.
  - apply Habsent. reflexivity.
  - destruct (Hfound 2%nat eq_refl) as (Heq & _). rewrite Heq. reflexivity.
Defined.

(** X3. [removeStation(X)] does not change which station any other name
    denotes; and when the registered names are distinct, no station is
    named X afterwards. *)
Theorem removeStation_lookup (b : Bistro) (X : string) :
  (∀ Y, Y ≠ X →
     findStation (snd (removeStation b X)) Y = findStation b Y) ∧
  (NoDup (stationNames b) → findStation (snd (removeStation b X)) X = None).
Proof.
  rewrite removeStation_firstNamed.
  destruct (firstNamed b X (items b)) as [i|] eqn:Hi; simpl; [|split].
  - pose proof (firstNamed_Some _ _ _ _ Hi) as (q & Hq & Hn & _). split.
    + intros Y HY. rewrite findStation_set_items.
      apply (findStation_loop_delete_other b Y (items b) i q); congruence.
    + intros Hnd. apply findStation_None. simpl.
      rewrite (firstNamed_ext b) by done.
      by apply firstNamed_delete_NoDup.
  - done.
  - intros _. by apply findStation_None.
Qed.

Lemma removeStation_lookup_witness :
  findStation (snd (removeStation Sample.kitchen "Grill Station")) "Pasta Station"
    = Some 3%nat ∧
  findStation (snd (removeStation Sample.kitchen "Grill Station")) "Grill Station"
    = None.
Proof.
  destruct (removeStation_lookup Sample.kitchen "Grill Station") as [Hother Hgone].
  split.
  - rewrite Hother by discriminate. reflexivity.
  - apply Hgone. unfold stationNames. simpl. distinct_names.
Defined.

(** ** addStation *)

(** X4. [addStation] always succeeds and puts the station behind the
    entries already there: every name that was registered still denotes the
    same station at the same index, and a name that was not registered now
    denotes the added station, at the index the registry length had. *)
Theorem addStation_spec (b : Bistro) (station : StationPtr) :
  addStation b station = (true, set_items (items b ++ [station]) b) ∧
  (∀ Y p, findStation b Y = Some p →
     findStation (snd (addStation b station)) Y = Some p ∧
     getStationIndex (snd (addStation b station)) Y = getStationIndex b Y) ∧
  (findStation b (getName b station) = None →
     findStation (snd (addStation b station)) (getName b station) = Some station ∧
     getStationIndex (snd (addStation b station)) (getName b station)
       = Z.of_nat (length (items b))).
Proof.
  rewrite addStation_back. simpl. split_and!; [done| |].
  - intros Y p Hf. rewrite findStation_set_items, findStation_loop_app.
    unfold findStation in Hf. rewrite Hf. split; [done|].
    rewrite !getStationIndex_firstNamed. simpl.
    rewrite (firstNamed_ext b) by done.
    fold (findStation b Y) in Hf.
    apply findStation_Some in Hf as (i & Hi & Hp). rewrite Hi.
    rewrite (firstNamed_first b Y (items b ++ [station]) i p); [done| | |].
    + rewrite lookup_app_l; [done|by eapply firstNamed_lt].
    + by apply firstNamed_Some in Hi as (q & Hq & Hn & _); congruence.
    + apply firstNamed_Some in Hi as (q & Hq & Hn & Hbefore).
      intros j r Hj Hr. apply (Hbefore j r Hj).
      rewrite lookup_app_l in Hr; [done|].
      apply lookup_lt_Some in Hq. lia.
  - intros Hf. rewrite findStation_set_items, findStation_loop_app.
    unfold findStation in Hf. rewrite Hf. simpl.
    rewrite String.eqb_refl. split; [done|].
    rewrite getStationIndex_firstNamed. simpl.
    rewrite (firstNamed_ext b) by done.
    rewrite (firstNamed_first b _ (items b ++ [station]) (length (items b)) station);
      [done| |done|].
    + by rewrite list_lookup_middle.
    + fold (findStation b (getName b station)) in Hf.
      apply findStation_None in Hf.
      intros j q Hj Hq. rewrite lookup_app_l in Hq by done.
      apply (proj1 (firstNamed_None _ _ _) Hf q).
      by eapply list_elem_of_lookup_2.
Qed.

Lemma addStation_spec_witness :
  findStation (snd (addStation Sample.kitchen 5%nat)) "Oven Station" = Some 2%nat ∧
  findStation (snd (addStation Sample.kitchen 5%nat)) "Seafood Station"
    = Some 5%nat ∧
  getStationIndex (snd (addStation Sample.kitchen 5%nat)) "Seafood Station" = 3.
Proof.
  destruct (addStation_spec Sample.kitchen 5%nat) as (_ & Hold & Hnew).
  destruct (Hold "Oven Station" 2%nat eq_refl) as [Hf _].
  destruct (Hnew eq_refl) as [Hf' Hi'].
  split_and!; [exact Hf|exact Hf'|exact Hi'].
Defined.

Lemma set_items_same b : set_items (items b) b = b.
Proof. by destruct b. Qed.

(** X5. Registering a station under a name that is not registered and then
    removing that name gives back the manager as it was. *)
Theorem addStation_removeStation (b : Bistro) (station : StationPtr) :
  findStation b (getName b station) = None →
  removeStation (snd (addStation b station)) (getName b station) = (true, b).
Proof.
  intros Hf. rewrite addStation_back. simpl.
  rewrite removeStation_firstNamed. simpl.
  rewrite (firstNamed_ext b) by done.
  apply findStation_None in Hf.
  rewrite (firstNamed_first b _ (items b ++ [station]) (length (items b)) station).
  - rewrite delete_middle, app_nil_r. f_equal. by destruct b.
  - by rewrite list_lookup_middle.
  - done.
  - intros j q Hj Hq. rewrite lookup_app_l in Hq by done.
    apply (proj1 (firstNamed_None _ _ _) Hf q).
    by eapply list_elem_of_lookup_2.
Qed.

Lemma addStation_removeStation_witness :
  removeStation (snd (addStation Sample.kitchen 5%nat)) "Seafood Station"
    = (true, Sample.kitchen).
Proof. apply (addStation_removeStation Sample.kitchen 5%nat). reflexivity. Defined.

(** ** moveStationToFront and mergeStations, seen through the lookups *)

(** X6. [moveStationToFront] only reorders: the registry after the call is
    a permutation of the registry before, and every name denotes the same
    station as before, whether the call succeeds or not. *)
Theorem moveStationToFront_lookup (b : Bistro) (X : string) :
  items (snd (moveStationToFront b X)) ≡ₚ items b ∧
  ∀ Y, findStation (snd (moveStationToFront b X)) Y = findStation b Y.
Proof.
  rewrite moveStationToFront_firstNamed.
  destruct (firstNamed b X (items b)) as [[|i]|] eqn:Hi; [done| |done].
  pose proof (firstNamed_Some _ _ _ _ Hi) as (p & Hp & Hn & _).
  rewrite Hp. simpl. split.
  - symmetry. by apply delete_Permutation.
  - intros Y. rewrite findStation_set_items. simpl.
    destruct (String.eqb_spec (getName b p) Y) as [He|Hne].
    + assert (Y = X) as -> by congruence.
      symmetry. apply findStation_Some. by exists (S i).
    + apply (findStation_loop_delete_other b Y (items b) (S i) p); done.
Qed.

(** X7. [moveStationToFront(X)] returns true exactly when X is registered,
    and then the station X denotes is the head of the registry: its index
    is 0. *)
Theorem moveStationToFront_front (b : Bistro) (X : string) :
  (fst (moveStationToFront b X) = true ↔ is_Some (findStation b X)) ∧
  (∀ p, findStation b X = Some p →
     head (items (snd (moveStationToFront b X))) = Some p ∧
     getStationIndex (snd (moveStationToFront b X)) X = 0).
Proof.
  rewrite moveStationToFront_firstNamed.
  destruct (firstNamed b X (items b)) as [[|i]|] eqn:Hi.
  - pose proof (firstNamed_Some _ _ _ _ Hi) as (q & Hq & Hn & _).
    assert (findStation b X = Some q) as Hf
      by (apply findStation_Some; by exists 0%nat).
    rewrite Hf. simpl. split; [done|]. intros p [= <-]. split.
    + by destruct (items b).
    + by rewrite getStationIndex_firstNamed, Hi.
  - pose proof (firstNamed_Some _ _ _ _ Hi) as (q & Hq & Hn & _).
    assert (findStation b X = Some q) as Hf
      by (apply findStation_Some; by exists (S i)).
    rewrite Hf, Hq. simpl. split; [done|]. intros p [= <-]. split; [done|].
    rewrite getStationIndex_firstNamed. simpl.
    by rewrite getName_set_items, Hn, String.eqb_refl.
  - rewrite (proj2 (findStation_None b X) Hi). simpl.
    split; [|done]. split; [done|]. by intros [? ?].
Qed.

Lemma moveStationToFront_front_witness :
  head (items (snd (moveStationToFront Sample.kitchen "Pasta Station")))
    = Some 3%nat ∧
  getStationIndex (snd (moveStationToFront Sample.kitchen "Pasta Station"))
    "Pasta Station" = 0.
Proof.
  destruct (moveStationToFront_front Sample.kitchen "Pasta Station") as [_ H].
  exact (H 3%nat eq_refl).
Defined.

(** X8. [mergeStations(A, B)] changes nothing when it fails; when it
    succeeds the registry is exactly one entry shorter and every name other
    than B denotes the same station as before. *)
Theorem mergeStations_lookup (b : Bistro) (A B : string) :
  (fst (mergeStations b A B) = false → snd (mergeStations b A B) = b) ∧
  (fst (mergeStations b A B) = true →
     S (length (items (snd (mergeStations b A B)))) = length (items b) ∧
     ∀ Y, Y ≠ B →
       findStation (snd (mergeStations b A B)) Y = findStation b Y).
Proof.
  destruct (findStation b A) as [pA|] eqn:HA;
    [destruct (findStation b B) as [pB|] eqn:HB|].
  - destruct (mergeStations_found b A B pA pB HA HB)
      as (iB & HiB & HpB & Hok & Hit & _).
    rewrite Hok. split; [done|]. intros _. split.
    + rewrite Hit, length_delete by by eexists. apply lookup_lt_Some in HpB. lia.
    + intros Y HY. unfold findStation at 1. rewrite Hit.
      rewrite (findStation_loop_ext b) by apply mergeStations_getName.
      apply (findStation_loop_delete_other b Y (items b) iB pB); [done|].
      apply findStation_name in HB. congruence.
  - unfold mergeStations. rewrite HA, HB. done.
  - unfold mergeStations. rewrite HA. done.
Qed.

Lemma mergeStations_lookup_witness :
  length (items (snd (mergeStations Sample.kitchen "Pasta Station" "Grill Station")))
    = 2%nat ∧
  findStation (snd (mergeStations Sample.kitchen "Pasta Station" "Grill Station"))
    "Oven Station" = Some 2%nat ∧
  snd (mergeStations Sample.kitchen "Salad Station" "Grill Station")
    = Sample.kitchen.
Proof.
  destruct (mergeStations_lookup Sample.kitchen "Pasta Station" "Grill Station")
    as [_ Hok].
  destruct (mergeStations_lookup Sample.kitchen "Salad Station" "Grill Station")
    as [Hfail _].
  destruct (Hok eq_refl) as [Hlen Hother].
  split_and!.
  - apply eq_add_S. exact Hlen.
  - rewrite Hother by discriminate. reflexivity.
  - apply Hfail. reflexivity.
Defined.

(** ** Operations on one station, by name *)

Lemma findStation_ext b b' sname :
  items b' = items b → (∀ p, getName b' p = getName b p) →
  findStation b' sname = findStation b sname.
Proof.
  intros Hit Hn. unfold findStation. rewrite Hit.
  by apply findStation_loop_ext.
Qed.

(** X9. The manager's [assignDishToStation(name, dish)] returns false and
    changes nothing when the name is not registered.  Otherwise only the
    station the name denotes is written: the registry, the queue, the pool,
    the other stations, and that station's name and stock stay as they
    were, and the assignment scan of [processAllDishes] then finds the dish's
    name at that station. *)
Theorem assignDishToStation_spec (dish_at : DishPtr → Dish) (b : Bistro)
    (sname : string) (dish : DishPtr) :
  (findStation b sname = None →
     assignDishToStation b sname dish = (false, b)) ∧
  (∀ p, findStation b sname = Some p →
     items (snd (assignDishToStation b sname dish)) = items b ∧
     dish_queue_ (snd (assignDishToStation b sname dish)) = dish_queue_ b ∧
     backup_ingredients_ (snd (assignDishToStation b sname dish))
       = backup_ingredients_ b ∧
     (∀ q, q ≠ p →
        station_at (snd (assignDishToStation b sname dish)) q = station_at b q) ∧
     station_name_ (station_at (snd (assignDishToStation b sname dish)) p)
       = station_name_ (station_at b p) ∧
     ingredients_stock_ (station_at (snd (assignDishToStation b sname dish)) p)
       = ingredients_stock_ (station_at b p) ∧
     dishAssigned dish_at
       (station_at (snd (assignDishToStation b sname dish)) p)
       (dish_name (dish_at dish)) = true).
Proof.
  unfold assignDishToStation. split.
  - by intros ->.
  - intros p ->. simpl. rewrite fn_lookup_insert. simpl.
    split_and!; try done.
    + intros q Hq. by rewrite fn_lookup_insert_ne.
    + unfold dishAssigned. simpl. rewrite existsb_app. simpl.
      rewrite String.eqb_refl. by rewrite orb_true_r.
Qed.

Lemma assignDishToStation_spec_witness :
  assignDishToStation Sample.kitchen "Salad Station" 12%nat
    = (false, Sample.kitchen) ∧
  dishAssigned Sample.dish_at
    (station_at (snd (assignDishToStation Sample.kitchen "Pasta Station" 12%nat))
                3%nat) "Seafood Paella" = true.
Proof.
  destruct (assignDishToStation_spec Sample.dish_at Sample.kitchen
              "Salad Station" 12%nat) as [Habsent _].
  destruct (assignDishToStation_spec Sample.dish_at Sample.kitchen
              "Pasta Station" 12%nat) as [_ Hfound].
  split.
  - apply Habsent. reflexivity.
  - exact (proj2 (proj2 (proj2 (proj2 (proj2 (proj2 (Hfound 3%nat eq_refl))))))).
Defined.

(** X10. [replenishIngredientAtStation(name, ingredient)] returns false and
    changes nothing when the name is not registered.  Otherwise it returns
    true, the station's quantity of the ingredient grows by the record's
    quantity, its quantities of the other ingredients do not move, and the
    registry, the queue, the pool and the other stations are untouched. *)
Theorem replenishIngredientAtStation_spec (b : Bistro) (sname : string)
    (ingredient : Ingredient) :
  (findStation b sname = None →
     replenishIngredientAtStation b sname ingredient = (false, b)) ∧
  (∀ p, findStation b sname = Some p →
     fst (replenishIngredientAtStation b sname ingredient) = true ∧
     items (snd (replenishIngredientAtStation b sname ingredient)) = items b ∧
     dish_queue_ (snd (replenishIngredientAtStation b sname ingredient))
       = dish_queue_ b ∧
     backup_ingredients_ (snd (replenishIngredientAtStation b sname ingredient))
       = backup_ingredients_ b ∧
     (∀ q, q ≠ p →
        station_at (snd (replenishIngredientAtStation b sname ingredient)) q
          = station_at b q) ∧
     (∀ n, totalQuantity
             (ingredients_stock_
                (station_at (snd (replenishIngredientAtStation b sname ingredient)) p))
             n
           = totalQuantity (ingredients_stock_ (station_at b p)) n
             + (if (name ingredient =? n)%string then quantity ingredient else 0)) ∧
     (∀ n, currentQuantity
             (ingredients_stock_
                (station_at (snd (replenishIngredientAtStation b sname ingredient)) p))
             n
           = currentQuantity (ingredients_stock_ (station_at b p)) n
             + (if (name ingredient =? n)%string then quantity ingredient else 0))).
Proof.
  unfold replenishIngredientAtStation. split.
  - by intros ->.
  - intros p ->. simpl. rewrite fn_lookup_insert. simpl.
    split_and!; try done.
    + intros q Hq. by rewrite fn_lookup_insert_ne.
    + intros n. apply totalQuantity_addIngredient.
    + intros n. apply currentQuantity_addIngredient.
Qed.

Lemma replenishIngredientAtStation_spec_witness :
  replenishIngredientAtStation Sample.kitchen "Salad Station" (Sample.rice 2)
    = (false, Sample.kitchen) ∧
  totalQuantity
    (ingredients_stock_
       (station_at
          (snd (replenishIngredientAtStation Sample.kitchen "Oven Station"
                  (Sample.chicken 2))) 2%nat)) "Chicken" = 5 + 2.
Proof.
  destruct (replenishIngredientAtStation_spec Sample.kitchen "Salad Station"
              (Sample.rice 2)) as [Habsent _].
  destruct (replenishIngredientAtStation_spec Sample.kitchen "Oven Station"
              (Sample.chicken 2)) as [_ Hfound].
  destruct (Hfound 2%nat eq_refl) as (_ & _ & _ & _ & _ & Htotal & _).
  split; [apply Habsent; reflexivity|apply Htotal].
Defined.

(** X11. A successful [replenishStationIngredientFromBackup(station, name,
    q)] leaves the stations exactly as [replenishIngredientAtStation] would
    with the record (name, q, 0, price of the pool's record): the two differ
    only in the pool. *)
Theorem replenishFromBackup_as_replenishAtStation (b : Bistro)
    (sname iname : string) (q : Z) :
  fst (replenishStationIngredientFromBackup b sname iname q) = true →
  ∃ r, r ∈ backup_ingredients_ b ∧ name r = iname ∧ q ≤ quantity r ∧
    fst (replenishIngredientAtStation b sname (mkIngredient iname q 0 (price r)))
      = true ∧
    snd (replenishStationIngredientFromBackup b sname iname q)
    = set_backup
        (backup_ingredients_
           (snd (replenishStationIngredientFromBackup b sname iname q)))
        (snd (replenishIngredientAtStation b sname
                (mkIngredient iname q 0 (price r)))).
Proof.
  intros Ht.
  destruct (replenish_from_backup_true _ _ _ _ Ht)
    as (station & pre & r & post & Hq & Hs & Hpool & Hn & Hpre & Hle & Heq).
  exists r. split_and!; [|done|done| |].
  - rewrite Hpool. apply elem_of_app. right. left.
  - unfold replenishIngredientAtStation. by rewrite Hs.
  - rewrite Heq. unfold replenishIngredientAtStation. rewrite Hs. done.
Qed.

Lemma replenishFromBackup_as_replenishAtStation_witness :
  station_at
    (snd (replenishStationIngredientFromBackup (Sample.scenario 10)
            "Grill Station" "Chicken" 3)) 1%nat
  = station_at
      (snd (replenishIngredientAtStation (Sample.scenario 10) "Grill Station"
              (Sample.chicken 3))) 1%nat.
Proof.
  destruct (replenishFromBackup_as_replenishAtStation (Sample.scenario 10)
              "Grill Station" "Chicken" 3 eq_refl) as (r & _ & _ & _ & _ & Heq).
  rewrite Heq. reflexivity.
Defined.

(** ** Orders: canCompleteOrder, prepareDishAtStation, prepareNextDish *)

Section OrderProofs.

Variable dish_at : DishPtr → Dish.
Variable stationCan : KitchenStation → string → bool.
Variable stationPrepare : KitchenStation → string → bool * KitchenStation.

Lemma canCompleteOrder_loop_true b dname l :
  canCompleteOrder_loop stationCan b dname l = true ↔
  ∃ p, p ∈ l ∧ stationCan (station_at b p) dname = true.
Proof.
  induction l as [|p l IH]; simpl.
  - split; [done|]. by intros (p & ?%elem_of_nil & _).
  - destruct (stationCan (station_at b p) dname) eqn:Hc.
    + split; [|done]. intros _. exists p. split; [left|done].
    + rewrite IH. split.
      * intros (q & Hq & Hcq). exists q. split; [by right|done].
      * intros (q & [->|Hq]%elem_of_cons & Hcq); [congruence|by exists q].
Qed.

(** X12. The manager's [canCompleteOrder(dish)] is true exactly when some
    registered station answers yes.  [prepareDishAtStation(station, dish)]
    returns false and changes nothing when the station is not registered or
    answers no; it writes nothing but that station's object; and it can
    only return true for a dish the manager's [canCompleteOrder] accepted. *)
Theorem prepareDishAtStation_spec (b : Bistro) (sname dname : string) :
  (canCompleteOrder stationCan b dname = true ↔
     ∃ p, p ∈ items b ∧ stationCan (station_at b p) dname = true) ∧
  (findStation b sname = None →
     prepareDishAtStation stationCan stationPrepare b sname dname = (false, b)) ∧
  (∀ p, findStation b sname = Some p →
     stationCan (station_at b p) dname = false →
     prepareDishAtStation stationCan stationPrepare b sname dname = (false, b)) ∧
  (∀ p, findStation b sname = Some p →
     stationCan (station_at b p) dname = true →
     prepareDishAtStation stationCan stationPrepare b sname dname
       = (fst (stationPrepare (station_at b p) dname),
          set_station p (snd (stationPrepare (station_at b p) dname)) b)) ∧
  (fst (prepareDishAtStation stationCan stationPrepare b sname dname) = true →
     canCompleteOrder stationCan b dname = true).
Proof.
  split_and!.
  - apply canCompleteOrder_loop_true.
  - unfold prepareDishAtStation. by intros ->.
  - unfold prepareDishAtStation. by intros p -> ->.
  - unfold prepareDishAtStation. intros p -> ->.
    by destruct (stationPrepare (station_at b p) dname).
  - unfold prepareDishAtStation.
    destruct (findStation b sname) as [p|] eqn:Hf; [|done].
    destruct (stationCan (station_at b p) dname) eqn:Hc; [|done].
    intros _. apply canCompleteOrder_loop_true. exists p. split; [|done].
    apply findStation_Some in Hf as (i & _ & Hp).
    by eapply list_elem_of_lookup_2.
Qed.

(** The station loop of [prepareNextDish] writes neither the registry nor
    the pool, pops the queue exactly when it succeeds, and does nothing at
    all when no station of the list answers yes. *)
Lemma prepareNextDish_loop_frame dish rest nodes b :
  items (snd (prepareNextDish_loop dish_at stationCan stationPrepare dish rest nodes b))
    = items b ∧
  backup_ingredients_
    (snd (prepareNextDish_loop dish_at stationCan stationPrepare dish rest nodes b))
    = backup_ingredients_ b ∧
  dish_queue_
    (snd (prepareNextDish_loop dish_at stationCan stationPrepare dish rest nodes b))
    = (if fst (prepareNextDish_loop dish_at stationCan stationPrepare dish rest nodes b)
       then rest else dish_queue_ b).
Proof.
  revert b. induction nodes as [|station next IH]; intros b; simpl; [done|].
  destruct (stationCan (station_at b station) (dish_name (dish_at dish)));
    [|apply IH].
  destruct (stationPrepare (station_at b station) (dish_name (dish_at dish)))
    as [ok s'].
  destruct ok; [done|].
  destruct (IH (set_station station s' b)) as (-> & -> & ->). done.
Qed.

Lemma prepareNextDish_loop_none dish rest nodes b :
  canCompleteOrder_loop stationCan b (dish_name (dish_at dish)) nodes = false →
  prepareNextDish_loop dish_at stationCan stationPrepare dish rest nodes b
    = (false, b).
Proof.
  induction nodes as [|station next IH]; simpl; [done|].
  destruct (stationCan (station_at b station) (dish_name (dish_at dish)));
    [done|apply IH].
Qed.

Lemma prepareNextDish_loop_true dish rest nodes b :
  fst (prepareNextDish_loop dish_at stationCan stationPrepare dish rest nodes b)
    = true →
  canCompleteOrder_loop stationCan b (dish_name (dish_at dish)) nodes = true.
Proof.
  intros Ht.
  destruct (canCompleteOrder_loop stationCan b (dish_name (dish_at dish)) nodes)
    eqn:Hc; [done|].
  by rewrite (prepareNextDish_loop_none _ _ _ _ Hc) in Ht.
Qed.

(** X13. [prepareNextDish] returns false and changes nothing on an empty
    queue.  In every case it writes neither the registry nor the backup
    pool (it never replenishes); it removes the front dish exactly when it
    returns true and leaves the queue as it was when it returns false. *)
Theorem prepareNextDish_queue (b : Bistro) :
  (dish_queue_ b = [] →
     prepareNextDish dish_at stationCan stationPrepare b = (false, b)) ∧
  items (snd (prepareNextDish dish_at stationCan stationPrepare b)) = items b ∧
  backup_ingredients_ (snd (prepareNextDish dish_at stationCan stationPrepare b))
    = backup_ingredients_ b ∧
  (fst (prepareNextDish dish_at stationCan stationPrepare b) = true →
     dish_queue_ (snd (prepareNextDish dish_at stationCan stationPrepare b))
       = tail (dish_queue_ b)) ∧
  (fst (prepareNextDish dish_at stationCan stationPrepare b) = false →
     dish_queue_ (snd (prepareNextDish dish_at stationCan stationPrepare b))
       = dish_queue_ b).
Proof.
  unfold prepareNextDish.
  destruct (dish_queue_ b) as [|dish rest] eqn:Hq; [done|].
  destruct (prepareNextDish_loop_frame dish rest (items b) b) as (Hit & Hpool & Hdq).
  split_and!; [done|done|done| |].
  - intros Ht. by rewrite Hdq, Ht.
  - intros Hf. by rewrite Hdq, Hf.
Qed.

(** X14. [prepareNextDish] prepares the front dish only if the manager's
    [canCompleteOrder] accepts it: when no registered station can complete
    the front dish the call returns false and changes nothing, and whenever
    the call returns true [canCompleteOrder] was true for that dish. *)
Theorem prepareNextDish_canCompleteOrder (b : Bistro) (dish : DishPtr)
    (rest : list DishPtr) :
  dish_queue_ b = dish :: rest →
  (canCompleteOrder stationCan b (dish_name (dish_at dish)) = false →
     prepareNextDish dish_at stationCan stationPrepare b = (false, b)) ∧
  (fst (prepareNextDish dish_at stationCan stationPrepare b) = true →
     canCompleteOrder stationCan b (dish_name (dish_at dish)) = true).
Proof.
  intros Hq. unfold prepareNextDish, canCompleteOrder. rewrite Hq. split.
  - apply prepareNextDish_loop_none.
  - apply prepareNextDish_loop_true.
Qed.

(** The station loop does not read the queue. *)
Lemma prepareNextDish_loop_queue dish rest rest' q nodes b :
  prepareNextDish_loop dish_at stationCan stationPrepare dish rest' nodes
    (set_dish_queue q b)
  = (let r := prepareNextDish_loop dish_at stationCan stationPrepare dish rest
                nodes b in
     (fst r, set_dish_queue (if fst r then rest' else q) (snd r))).
Proof.
  revert b. induction nodes as [|station next IH]; intros b; simpl; [done|].
  destruct (stationCan (station_at b station) (dish_name (dish_at dish)));
    [|apply IH].
  destruct (stationPrepare (station_at b station) (dish_name (dish_at dish)))
    as [ok s'].
  destruct ok; [done|]. apply (IH (set_station station s' b)).
Qed.

(** X15. The queue is first in, first out: on a queue that is not empty,
    adding a dish and then calling [prepareNextDish] gives the same answer
    and the same state as calling [prepareNextDish] and then adding the
    dish. *)
Theorem prepareNextDish_addDishToQueue (b : Bistro) (d : DishPtr) :
  dish_queue_ b ≠ [] →
  prepareNextDish dish_at stationCan stationPrepare (addDishToQueue b (Some d))
  = (fst (prepareNextDish dish_at stationCan stationPrepare b),
     addDishToQueue (snd (prepareNextDish dish_at stationCan stationPrepare b))
                    (Some d)).
Proof.
  intros Hne. unfold prepareNextDish. simpl.
  destruct (dish_queue_ b) as [|dish rest] eqn:Hq; [done|]. simpl.
  rewrite (prepareNextDish_loop_queue dish rest (rest ++ [d])). simpl.
  destruct (prepareNextDish_loop_frame dish rest (items b) b) as (_ & _ & Hdq).
  unfold set_dish_queue. rewrite Hdq, Hq.
  by destruct (fst (prepareNextDish_loop dish_at stationCan stationPrepare
                      dish rest (items b) b)).
Qed.

End OrderProofs.

Lemma prepareDishAtStation_spec_witness :
  prepareDishAtStation (Reference.canCompleteOrder Sample.dish_at)
    (Reference.prepareDish Sample.dish_at) Sample.kitchen
    "Salad Station" "Grilled Chicken" = (false, Sample.kitchen) ∧
  prepareDishAtStation (Reference.canCompleteOrder Sample.dish_at)
    (Reference.prepareDish Sample.dish_at) Sample.kitchen
    "Grill Station" "Grilled Chicken" = (false, Sample.kitchen) ∧
  fst (prepareDishAtStation (Reference.canCompleteOrder Sample.dish_at)
         (Reference.prepareDish Sample.dish_at) Sample.kitchen
         "Oven Station" "Grilled Chicken") = true ∧
  canCompleteOrder (Reference.canCompleteOrder Sample.dish_at) Sample.kitchen
    "Grilled Chicken" = true.
Proof.
  destruct (prepareDishAtStation_spec (Reference.canCompleteOrder Sample.dish_at)
              (Reference.prepareDish Sample.dish_at) Sample.kitchen
              "Salad Station" "Grilled Chicken") as (_ & Habsent & _).
  destruct (prepareDishAtStation_spec (Reference.canCompleteOrder Sample.dish_at)
              (Reference.prepareDish Sample.dish_at) Sample.kitchen
              "Grill Station" "Grilled Chicken") as (_ & _ & Hcannot & _).
  destruct (prepareDishAtStation_spec (Reference.canCompleteOrder Sample.dish_at)
              (Reference.prepareDish Sample.dish_at) Sample.kitchen
              "Oven Station" "Grilled Chicken") as (_ & _ & _ & Hcan & Himp).
  assert (fst (prepareDishAtStation (Reference.canCompleteOrder Sample.dish_at)
                 (Reference.prepareDish Sample.dish_at) Sample.kitchen
                 "Oven Station" "Grilled Chicken") = true) as Ht.
  { rewrite (Hcan 2%nat eq_refl eq_refl). reflexivity. }
  split_and!.
  - apply Habsent. reflexivity.
  - apply (Hcannot 1%nat); reflexivity.
  - exact Ht.
  - exact (Himp Ht).
Defined.

Lemma prepareNextDish_queue_witness :
  prepareNextDish Sample.dish_at (Reference.canCompleteOrder Sample.dish_at)
    (Reference.prepareDish Sample.dish_at) Sample.kitchen
    = (false, Sample.kitchen) ∧
  dish_queue_
    (snd (prepareNextDish Sample.dish_at (Reference.canCompleteOrder Sample.dish_at)
            (Reference.prepareDish Sample.dish_at) (Sample.scenario 10)))
    = [] ∧
  dish_queue_
    (snd (prepareNextDish Sample.dish_at (Reference.canCompleteOrder Sample.dish_at)
            (Reference.prepareDish Sample.dish_at) Sample.service))
    = [10; 11; 12]%nat.
Proof.
  destruct (prepareNextDish_queue Sample.dish_at
              (Reference.canCompleteOrder Sample.dish_at)
              (Reference.prepareDish Sample.dish_at) Sample.kitchen)
    as (Hempty & _).
  destruct (prepareNextDish_queue Sample.dish_at
              (Reference.canCompleteOrder Sample.dish_at)
              (Reference.prepareDish Sample.dish_at) (Sample.scenario 10))
    as (_ & _ & _ & Hpop & _).
  destruct (prepareNextDish_queue Sample.dish_at
              (Reference.canCompleteOrder Sample.dish_at)
              (Reference.prepareDish Sample.dish_at) Sample.service)
    as (_ & _ & _ & _ & Hkeep).
  split_and!.
  - apply Hempty. reflexivity.
  - rewrite Hpop; reflexivity.
  - rewrite Hkeep; reflexivity.
Defined.

Lemma prepareNextDish_canCompleteOrder_witness :
  prepareNextDish Sample.dish_at (Reference.canCompleteOrder Sample.dish_at)
    (Reference.prepareDish Sample.dish_at) Sample.service
    = (false, Sample.service) ∧
  canCompleteOrder (Reference.canCompleteOrder Sample.dish_at)
    (Sample.scenario 10) "Grilled Chicken" = true.
Proof.
  destruct (prepareNextDish_canCompleteOrder Sample.dish_at
              (Reference.canCompleteOrder Sample.dish_at)
              (Reference.prepareDish Sample.dish_at) Sample.service
              10%nat [11; 12]%nat eq_refl) as [Hnone _].
  destruct (prepareNextDish_canCompleteOrder Sample.dish_at
              (Reference.canCompleteOrder Sample.dish_at)
              (Reference.prepareDish Sample.dish_at) (Sample.scenario 10)
              11%nat [] eq_refl) as [_ Himp].
  split.
  - apply Hnone. reflexivity.
  - apply Himp. reflexivity.
Defined.

Lemma prepareNextDish_addDishToQueue_witness :
  dish_queue_
    (snd (prepareNextDish Sample.dish_at (Reference.canCompleteOrder Sample.dish_at)
            (Reference.prepareDish Sample.dish_at)
            (addDishToQueue (Sample.scenario 10) (Some 12%nat))))
    = [12%nat].
Proof.
  rewrite (prepareNextDish_addDishToQueue Sample.dish_at
             (Reference.canCompleteOrder Sample.dish_at)
             (Reference.prepareDish Sample.dish_at) (Sample.scenario 10) 12%nat);
    [reflexivity|discriminate].
Defined.

(** ** The backup pool: what adding and withdrawing keep *)

Lemma addIngredient_names_NoDup l ing :
  NoDup (name <$> l) → NoDup (name <$> addIngredient l ing).
Proof.
  intros Hnd. destruct (addIngredient_shape l ing) as [[_ ->]|[Hnin ->]]; [done|].
  rewrite fmap_app. apply list.NoDup_app. split_and!; [done| |apply NoDup_singleton].
  intros x Hx [->|[]%elem_of_nil]%elem_of_cons. done.
Qed.

Lemma addIngredient_allPositive l ing :
  allPositive l → 0 < quantity ing → allPositive (addIngredient l ing).
Proof.
  unfold allPositive. intros Hl Hq. induction Hl as [|i l Hi Hl IH]; simpl.
  - by repeat constructor.
  - destruct (name i =? name ing)%string.
    + constructor; [simpl; lia|done].
    + by constructor.
Qed.

Lemma addIngredient_name_in l ing : name ing ∈ (name <$> addIngredient l ing).
Proof.
  destruct (addIngredient_shape l ing) as [[Hin ->]|[_ ->]]; [done|].
  rewrite fmap_app. apply elem_of_app. right. left.
Qed.

Lemma wrap_int_in_range z : INT_MIN ≤ z ≤ INT_MAX → wrap_int z = z.
Proof.
  unfold INT_MIN, INT_MAX, wrap_int. intros Hz.
  rewrite Z.mod_small by lia. lia.
Qed.

Lemma addBackupIngredient_loop_names l ing :
  (name <$> addBackupIngredient_loop l ing) = (name <$> addIngredient l ing).
Proof.
  induction l as [|i l IH]; simpl; [done|].
  destruct (name i =? name ing)%string; [done|].
  rewrite !fmap_cons. f_equal. exact IH.
Qed.

(** Inside the [int] range the loop of [addBackupIngredient] adds exactly. *)
Lemma addBackupIngredient_loop_in_range l ing :
  INT_MIN ≤ currentQuantity l (name ing) + quantity ing ≤ INT_MAX →
  addBackupIngredient_loop l ing = addIngredient l ing.
Proof.
  induction l as [|i l IH]; simpl; [done|].
  destruct (name i =? name ing)%string.
  - intros Hr. by rewrite wrap_int_in_range.
  - intros Hr. by rewrite IH.
Qed.

Lemma addBackupIngredient_loop_absent l ing :
  (name ing ∉ (name <$> l)) → addBackupIngredient_loop l ing = l ++ [ing].
Proof.
  induction l as [|i l IH]; simpl; [done|]. intros Hn.
  destruct (String.eqb_spec (name i) (name ing)) as [He|Hne].
  - destruct Hn. rewrite He. left.
  - rewrite IH; [done|]. intros Hin. apply Hn. by right.
Qed.

Lemma addBackupIngredient_loop_others l ing n :
  n ≠ name ing →
  totalQuantity (addBackupIngredient_loop l ing) n = totalQuantity l n.
Proof.
  intros Hn. induction l as [|i l IH]; simpl.
  - destruct (String.eqb_spec (name ing) n); [congruence|lia].
  - destruct (String.eqb_spec (name i) (name ing)) as [He|Hne]; simpl.
    + destruct (String.eqb_spec (name i) n); [congruence|lia].
    + by rewrite IH.
Qed.

Lemma addBackupIngredient_loop_current l ing :
  currentQuantity (addBackupIngredient_loop l ing) (name ing)
  = if decide (name ing ∈ (name <$> l))
    then wrap_int (currentQuantity l (name ing) + quantity ing)
    else quantity ing.
Proof.
  induction l as [|i l IH]; cbn [addBackupIngredient_loop currentQuantity].
  - rewrite String.eqb_refl.
    destruct (decide (name ing ∈ (name <$> []))) as [Hin|_]; [|done].
    by apply elem_of_nil in Hin.
  - destruct (String.eqb_spec (name i) (name ing)) as [He|Hne];
      cbn [currentQuantity name quantity].
    + apply String.eqb_eq in He as He'. rewrite He'.
      destruct (decide (name ing ∈ (name <$> i :: l))) as [_|Hnin]; [done|].
      destruct Hnin. rewrite fmap_cons, He. left.
    + apply String.eqb_neq in Hne as Hne'. rewrite Hne', IH.
      destruct (decide (name ing ∈ (name <$> l))) as [Hin|Hnin];
        destruct (decide (name ing ∈ (name <$> i :: l))) as [Hin'|Hnin'];
        try done.
      * destruct Hnin'. rewrite fmap_cons. by right.
      * rewrite fmap_cons in Hin'.
        apply elem_of_cons in Hin' as [?|?]; [congruence|done].
Qed.

Lemma currentQuantity_allPositive l n : allPositive l → 0 ≤ currentQuantity l n.
Proof.
  unfold allPositive. induction 1 as [|i l Hi Hl IH]; simpl; [done|].
  destruct (name i =? n)%string; lia.
Qed.

(** X16. [addBackupIngredient] always succeeds and touches nothing but the
    pool.  The ingredient is in the pool afterwards; the quantities of the
    other ingredients do not move; a pool whose names are distinct keeps
    distinct names (no second record of a name is ever created).  The
    record of that name holds the [int] sum of its quantity and the added
    one, wrapped around outside the 32-bit range; a record pushed for a new
    name keeps its quantity.  When that sum lies in the [int] range the
    pool's quantity of the ingredient grows by exactly the added quantity,
    and a pool of positive quantities stays so when a positive quantity is
    added without passing [INT_MAX]. *)
Theorem addBackupIngredient_spec (b : Bistro) (ingredient : Ingredient) :
  fst (addBackupIngredient b ingredient) = true ∧
  station_at (snd (addBackupIngredient b ingredient)) = station_at b ∧
  items (snd (addBackupIngredient b ingredient)) = items b ∧
  dish_queue_ (snd (addBackupIngredient b ingredient)) = dish_queue_ b ∧
  name ingredient
    ∈ (name <$> backup_ingredients_ (snd (addBackupIngredient b ingredient))) ∧
  (NoDup (name <$> backup_ingredients_ b) →
     NoDup (name <$> backup_ingredients_ (snd (addBackupIngredient b ingredient)))) ∧
  (∀ n, n ≠ name ingredient →
     totalQuantity (backup_ingredients_ (snd (addBackupIngredient b ingredient))) n
       = totalQuantity (backup_ingredients_ b) n) ∧
  currentQuantity (backup_ingredients_ (snd (addBackupIngredient b ingredient)))
                  (name ingredient)
    = (if decide (name ingredient ∈ (name <$> backup_ingredients_ b))
       then wrap_int (currentQuantity (backup_ingredients_ b) (name ingredient)
                      + quantity ingredient)
       else quantity ingredient) ∧
  (INT_MIN ≤ currentQuantity (backup_ingredients_ b) (name ingredient)
             + quantity ingredient ≤ INT_MAX →
     ∀ n, totalQuantity (backup_ingredients_ (snd (addBackupIngredient b ingredient))) n
          = totalQuantity (backup_ingredients_ b) n
            + (if (name ingredient =? n)%string then quantity ingredient else 0)) ∧
  (allPositive (backup_ingredients_ b) → 0 < quantity ingredient →
   currentQuantity (backup_ingredients_ b) (name ingredient)
     + quantity ingredient ≤ INT_MAX →
     allPositive (backup_ingredients_ (snd (addBackupIngredient b ingredient)))).
Proof.
  simpl. split_and!; try done.
  - rewrite addBackupIngredient_loop_names. apply addIngredient_name_in.
  - rewrite addBackupIngredient_loop_names. apply addIngredient_names_NoDup.
  - intros n Hn. by apply addBackupIngredient_loop_others.
  - apply addBackupIngredient_loop_current.
  - intros Hr n. rewrite addBackupIngredient_loop_in_range by done.
    apply totalQuantity_addIngredient.
  - intros Hpos Hq Hmax.
    pose proof (currentQuantity_allPositive _ (name ingredient) Hpos) as Hcur.
    rewrite addBackupIngredient_loop_in_range by (unfold INT_MIN; lia).
    by apply addIngredient_allPositive.
Qed.

Lemma addBackupIngredient_spec_witness :
  NoDup (name <$> backup_ingredients_
                    (snd (addBackupIngredient (Sample.scenario 10) (Sample.chicken 2)))) ∧
  totalQuantity
    (backup_ingredients_
       (snd (addBackupIngredient (Sample.scenario 10) (Sample.chicken 2))))
    "Chicken" = 10 + 2 ∧
  allPositive (backup_ingredients_
                 (snd (addBackupIngredient (Sample.scenario 10) (Sample.rice 2)))) ∧
  currentQuantity
    (backup_ingredients_
       (snd (addBackupIngredient (Sample.scenario INT_MAX) (Sample.chicken 1))))
    "Chicken" = INT_MIN.
Proof.
  destruct (addBackupIngredient_spec (Sample.scenario 10) (Sample.chicken 2))
    as (_ & _ & _ & _ & _ & Hnd & _ & _ & Hsum & _).
  destruct (addBackupIngredient_spec (Sample.scenario 10) (Sample.rice 2))
    as (_ & _ & _ & _ & _ & _ & _ & _ & _ & Hpos).
  destruct (addBackupIngredient_spec (Sample.scenario INT_MAX) (Sample.chicken 1))
    as (_ & _ & _ & _ & _ & _ & _ & Hwrap & _).
  split_and!.
  - apply Hnd. simpl. distinct_names.
  - rewrite Hsum; [reflexivity|]. unfold INT_MIN, INT_MAX. simpl. lia.
  - apply Hpos; [repeat constructor|simpl; lia|unfold INT_MAX; simpl; lia].
  - exact (eq_trans Hwrap eq_refl).
Defined.

(** X17. [replenishStationIngredientFromBackup] keeps the pool in shape,
    whether it succeeds or fails: the names left in the pool are names that
    were there, in the same order; distinct names stay distinct; and a pool
    of positive quantities stays so, a record being erased rather than left
    at zero. *)
Theorem replenishFromBackup_pool_invariants (b : Bistro) (sname iname : string)
    (q : Z) :
  (name <$> backup_ingredients_
              (snd (replenishStationIngredientFromBackup b sname iname q)))
    `sublist_of` (name <$> backup_ingredients_ b) ∧
  (NoDup (name <$> backup_ingredients_ b) →
     NoDup (name <$> backup_ingredients_
                       (snd (replenishStationIngredientFromBackup b sname iname q)))) ∧
  (allPositive (backup_ingredients_ b) →
     allPositive (backup_ingredients_
                    (snd (replenishStationIngredientFromBackup b sname iname q)))).
Proof.
  assert ((name <$> backup_ingredients_
              (snd (replenishStationIngredientFromBackup b sname iname q)))
            `sublist_of` (name <$> backup_ingredients_ b) ∧
          (allPositive (backup_ingredients_ b) →
           allPositive (backup_ingredients_
              (snd (replenishStationIngredientFromBackup b sname iname q)))))
    as [Hsub Hpos].
  { destruct (fst (replenishStationIngredientFromBackup b sname iname q)) eqn:Hr.
    - destruct (replenish_from_backup_true _ _ _ _ Hr)
        as (station & pre & r & post & Hq & _ & Hpool & Hn & _ & Hle & ->).
      simpl. rewrite Hpool. split.
      + rewrite !fmap_app. apply sublist_app; [done|].
        destruct (quantity r - q =? 0); [by apply sublist_cons|done].
      + unfold allPositive. intros [Hpre Hrest]%Forall_app.
        inversion Hrest as [|? ? Hr' Hpost]; subst.
        apply Forall_app. split; [done|].
        destruct (Z.eqb_spec (quantity r - q) 0); [done|].
        constructor; [simpl; lia|done].
    - by rewrite (replenish_from_backup_false _ _ _ _ Hr). }
  split_and!; [done| |done].
  intros Hnd. by apply (sublist_NoDup _ _ Hnd).
Qed.

Lemma replenishFromBackup_pool_invariants_witness :
  allPositive
    (backup_ingredients_
       (snd (replenishStationIngredientFromBackup (Sample.scenario 10)
               "Grill Station" "Chicken" 10))) ∧
  NoDup (name <$> backup_ingredients_
           (snd (replenishStationIngredientFromBackup (Sample.scenario 10)
                   "Grill Station" "Chicken" 4))).
Proof.
  destruct (replenishFromBackup_pool_invariants (Sample.scenario 10)
              "Grill Station" "Chicken" 10) as (_ & _ & Hpos).
  destruct (replenishFromBackup_pool_invariants (Sample.scenario 10)
              "Grill Station" "Chicken" 4) as (_ & Hnd & _).
  split.
  - apply Hpos. repeat constructor.
  - apply Hnd. simpl. distinct_names.
Defined.

Lemma withdraw_loop_snoc l ing :
  (name ing ∉ (name <$> l)) →
  withdraw_loop (l ++ [ing]) (name ing) (quantity ing)
  = Some (mkIngredient (name ing) (quantity ing) 0 (price ing), l).
Proof.
  induction l as [|it l IH]; intros Hn; simpl.
  - rewrite String.eqb_refl, Z.leb_refl, Z.sub_diag. done.
  - destruct (String.eqb_spec (name it) (name ing)) as [He|Hne].
    + destruct Hn. rewrite fmap_cons, He. left.
    + rewrite IH; [done|]. intros Hin. apply Hn. rewrite fmap_cons. by right.
Qed.

(** X18. Adding to the pool an ingredient it does not hold, in a positive
    quantity, and then replenishing a registered station with exactly that
    quantity succeeds and leaves the pool as it was before the addition:
    the whole quantity has moved to the station. *)
Theorem addBackupIngredient_then_replenish (b : Bistro) (sname : string)
    (ingredient : Ingredient) (station : StationPtr) :
  findStation b sname = Some station →
  0 < quantity ingredient →
  (name ingredient ∉ (name <$> backup_ingredients_ b)) →
  fst (replenishStationIngredientFromBackup
         (snd (addBackupIngredient b ingredient)) sname
         (name ingredient) (quantity ingredient)) = true ∧
  backup_ingredients_
    (snd (replenishStationIngredientFromBackup
            (snd (addBackupIngredient b ingredient)) sname
            (name ingredient) (quantity ingredient)))
    = backup_ingredients_ b ∧
  totalQuantity
    (ingredients_stock_
       (station_at
          (snd (replenishStationIngredientFromBackup
                  (snd (addBackupIngredient b ingredient)) sname
                  (name ingredient) (quantity ingredient))) station))
    (name ingredient)
  = totalQuantity (ingredients_stock_ (station_at b station)) (name ingredient)
    + quantity ingredient.
Proof.
  intros Hs Hq Hn.
  assert (findStation (snd (addBackupIngredient b ingredient)) sname
          = Some station) as Hs'.
  { rewrite <- Hs. by apply findStation_ext. }
  assert (backup_ingredients_ (snd (addBackupIngredient b ingredient))
          = backup_ingredients_ b ++ [ingredient]) as Hpool.
  { simpl. by apply addBackupIngredient_loop_absent. }
  unfold replenishStationIngredientFromBackup.
  destruct (Z.leb_spec (quantity ingredient) 0); [lia|].
  rewrite Hs', Hpool, withdraw_loop_snoc by done.
  cbn [fst snd]. unfold set_backup, replenishAt, set_station.
  cbn [backup_ingredients_ station_at]. rewrite fn_lookup_insert.
  unfold KitchenStation.replenishStationIngredients. cbn [ingredients_stock_].
  split_and!; [done|done|].
  rewrite totalQuantity_addIngredient. cbn [name quantity snd addBackupIngredient station_at set_backup].
  by rewrite String.eqb_refl.
Qed.

Lemma addBackupIngredient_then_replenish_witness :
  backup_ingredients_
    (snd (replenishStationIngredientFromBackup
            (snd (addBackupIngredient (Sample.scenario 10) (Sample.rice 2)))
            "Oven Station" "Rice" 2))
  = [Sample.chicken 10].
Proof.
  destruct (addBackupIngredient_then_replenish (Sample.scenario 10)
              "Oven Station" (Sample.rice 2) 2%nat) as (_ & Hpool & _).
  - reflexivity.
  - simpl. lia.
  - simpl. intros Hin.
    repeat (apply elem_of_cons in Hin as [Hin|Hin]; [discriminate|]).
    by apply elem_of_nil in Hin.
  - exact Hpool.
Defined.

(** ** The dispatch pass: what it leaves alone *)

Lemma Replenishment_frame station ingredients b ws ok b' :
  Replenishment station ingredients b ws ok b' →
  items b' = items b ∧ dish_queue_ b' = dish_queue_ b ∧
  ∀ n, totalQuantity (backup_ingredients_ b') n
       ≤ totalQuantity (backup_ingredients_ b) n.
Proof.
  induction 1 as [b|ing rest b ws ok b' Hle H IH
                  |ing rest b b1 ws ok b' Hpos Hr H IH
                  |ing rest b Hpos Hr].
  - split_and!; [done|done|intros; lia].
  - done.
  - assert (fst (replenishStationIngredientFromBackup b (getName b station)
                   (name ing) (shortfall station b ing)) = true) as Ht
      by by rewrite Hr.
    destruct (replenish_from_backup_true _ _ _ _ Ht) as (t & _ & _ & _ & _ & Hs & _).
    destruct (replenish_from_backup_effect _ _ _ _ _ _ Hr Hs)
      as (Hq & Hit & Hdq & _ & _ & Hpool & _).
    destruct IH as (Hit' & Hdq' & Hpool').
    split_and!; [congruence|congruence|].
    intros n. specialize (Hpool' n). rewrite Hpool in Hpool'.
    destruct (name ing =? n)%string; lia.
  - split_and!; [done|done|intros; lia].
Qed.

Section DispatchFrame.

Variable dish_at : DishPtr → Dish.
Variable stationCan : KitchenStation → string → bool.
Variable stationPrepare : KitchenStation → string → bool * KitchenStation.

Lemma visitStation_frame dish station b :
  items (snd (fst (visitStation dish_at stationCan stationPrepare dish station b)))
    = items b ∧
  ∀ n, totalQuantity
         (backup_ingredients_
            (snd (fst (visitStation dish_at stationCan stationPrepare dish station b))))
         n
       ≤ totalQuantity (backup_ingredients_ b) n.
Proof.
  unfold visitStation.
  destruct (dishAssigned dish_at (station_at b station) (dish_name (dish_at dish)));
    simpl; [|split; [done|intros; lia]].
  destruct (stationCan (station_at b station) (dish_name (dish_at dish))).
  - destruct (stationPrepare (station_at b station) (dish_name (dish_at dish)))
      as [[|] s']; simpl; (split; [done|intros; lia]).
  - pose proof (replenishLoop_Replenishment station
                  (dish_ingredients (dish_at dish)) b) as HR.
    apply Replenishment_frame in HR as (Hit & _ & Hpool).
    destruct (replenishLoop station (dish_ingredients (dish_at dish)) b)
      as [[|] b1]; simpl in *; [|done].
    destruct (stationPrepare (station_at b1 station) (dish_name (dish_at dish)))
      as [[|] s']; simpl; done.
Qed.

Lemma walkStations_frame dish nodes b :
  items (snd (fst (walkStations dish_at stationCan stationPrepare dish nodes b)))
    = items b ∧
  ∀ n, totalQuantity
         (backup_ingredients_
            (snd (fst (walkStations dish_at stationCan stationPrepare dish nodes b))))
         n
       ≤ totalQuantity (backup_ingredients_ b) n.
Proof.
  revert b. induction nodes as [|station next IH]; intros b; simpl.
  - split; [done|intros; lia].
  - pose proof (visitStation_frame dish station b) as [Hit Hpool].
    destruct (visitStation dish_at stationCan stationPrepare dish station b)
      as [[r b1] out]. simpl in *.
    destruct r; [done|].
    pose proof (IH b1) as [Hit' Hpool'].
    destruct (walkStations dish_at stationCan stationPrepare dish next b1)
      as [[r' b2] out']. simpl in *.
    split; [congruence|]. intros n. specialize (Hpool n). specialize (Hpool' n). lia.
Qed.

Lemma processQueue_frame queue temp_queue b :
  items (snd (fst (processQueue dish_at stationCan stationPrepare queue temp_queue b)))
    = items b ∧
  ∀ n, totalQuantity
         (backup_ingredients_
            (snd (fst (processQueue dish_at stationCan stationPrepare
                         queue temp_queue b)))) n
       ≤ totalQuantity (backup_ingredients_ b) n.
Proof.
  revert temp_queue b.
  induction queue as [|dish rest IH]; intros temp_queue b; simpl.
  - split; [done|intros; lia].
  - pose proof (walkStations_frame dish (items b) (set_dish_queue rest b))
      as [Hit Hpool].
    destruct (walkStations dish_at stationCan stationPrepare dish (items b)
                (set_dish_queue rest b)) as [[r b1] out]. simpl in *.
    pose proof (IH (if r then temp_queue else temp_queue ++ [dish]) b1)
      as [Hit' Hpool'].
    destruct (processQueue dish_at stationCan stationPrepare rest
                (if r then temp_queue else temp_queue ++ [dish]) b1)
      as [[tq b2] out']. simpl in *.
    split; [congruence|]. intros n. specialize (Hpool n). specialize (Hpool' n). lia.
Qed.

(** X19. [processAllDishes] never reorders, adds or removes stations, never
    lengthens the queue, and never puts anything into the backup pool: for
    every ingredient the pool holds at most what it held before. *)
Theorem processAllDishes_frame (b : Bistro) :
  items (fst (processAllDishes dish_at stationCan stationPrepare b)) = items b ∧
  (length (dish_queue_ (fst (processAllDishes dish_at stationCan stationPrepare b)))
     ≤ length (dish_queue_ b))%nat ∧
  ∀ n, totalQuantity
         (backup_ingredients_
            (fst (processAllDishes dish_at stationCan stationPrepare b))) n
       ≤ totalQuantity (backup_ingredients_ b) n.
Proof.
  unfold processAllDishes.
  pose proof (processQueue_frame (dish_queue_ b) [] b) as [Hit Hpool].
  pose proof (processQueue_temp_queue dish_at stationCan stationPrepare
                (dish_queue_ b) [] b) as Htq.
  destruct (processQueue dish_at stationCan stationPrepare (dish_queue_ b) [] b)
    as [[tq b'] out]. simpl in *.
  split_and!; [done| |done].
  rewrite Htq. apply sublist_length, unresolved_sublist.
Qed.

Lemma walkStations_unassigned dish nodes b :
  (∀ p, p ∈ nodes →
        dishAssigned dish_at (station_at b p) (dish_name (dish_at dish)) = false) →
  fst (walkStations dish_at stationCan stationPrepare dish nodes b) = (false, b).
Proof.
  induction nodes as [|station next IH]; intros Hun; simpl; [done|].
  unfold visitStation. rewrite (Hun station) by left. simpl.
  rewrite <- IH by (intros p Hp; apply Hun; by right).
  by destruct (walkStations dish_at stationCan stationPrepare dish next b)
    as [[r b'] out].
Qed.

Lemma processQueue_unassigned queue temp_queue b :
  (∀ d p, d ∈ queue → p ∈ items b →
          dishAssigned dish_at (station_at b p) (dish_name (dish_at d)) = false) →
  ∃ q', fst (processQueue dish_at stationCan stationPrepare queue temp_queue b)
        = (temp_queue ++ queue, set_dish_queue q' b).
Proof.
  revert temp_queue b.
  induction queue as [|dish rest IH]; intros temp_queue b Hun; simpl.
  - exists (dish_queue_ b). rewrite app_nil_r. by destruct b.
  - assert (fst (walkStations dish_at stationCan stationPrepare dish (items b)
                   (set_dish_queue rest b)) = (false, set_dish_queue rest b)) as Hw.
    { apply walkStations_unassigned. intros p Hp. apply Hun; [left|done]. }
    destruct (walkStations dish_at stationCan stationPrepare dish (items b)
                (set_dish_queue rest b)) as [[r b1] out].
    simpl in Hw. injection Hw as -> ->.
    destruct (IH (temp_queue ++ [dish]) (set_dish_queue rest b)) as [q' Hq'].
    { intros d p Hd Hp. apply Hun; [by right|done]. }
    destruct (processQueue dish_at stationCan stationPrepare rest
                (temp_queue ++ [dish]) (set_dish_queue rest b))
      as [[tq b2] out'].
    simpl in *. injection Hq' as -> ->.
    exists q'. by rewrite <- app_assoc.
Qed.

(** X20. When no queued dish is assigned to any registered station, and in
    particular when the queue or the registry is empty,
    [processAllDishes] leaves the manager and the stations exactly as they
    were: every dish stays queued, in order.  On an empty queue it prints
    the closing line only. *)
Theorem processAllDishes_unassigned (b : Bistro) :
  ((∀ d p, d ∈ dish_queue_ b → p ∈ items b →
           dishAssigned dish_at (station_at b p) (dish_name (dish_at d)) = false) →
     fst (processAllDishes dish_at stationCan stationPrepare b) = b) ∧
  (items b = [] →
     fst (processAllDishes dish_at stationCan stationPrepare b) = b) ∧
  (dish_queue_ b = [] →
     processAllDishes dish_at stationCan stationPrepare b = (b, [completionLine])).
Proof.
  assert ((∀ d p, d ∈ dish_queue_ b → p ∈ items b →
             dishAssigned dish_at (station_at b p) (dish_name (dish_at d)) = false) →
          fst (processAllDishes dish_at stationCan stationPrepare b) = b) as Hun.
  { intros H. unfold processAllDishes.
    destruct (processQueue_unassigned (dish_queue_ b) [] b H) as [q' Hq'].
    destruct (processQueue dish_at stationCan stationPrepare (dish_queue_ b) [] b)
      as [[tq b'] out].
    simpl in *. injection Hq' as -> ->. by destruct b. }
  split_and!; [done| |].
  - intros Hit. apply Hun. intros d p _ Hp. rewrite Hit in Hp.
    by apply elem_of_nil in Hp.
  - intros Hq. unfold processAllDishes. rewrite Hq. simpl.
    destruct b; simpl in *. by subst.
Qed.

End DispatchFrame.

Lemma processAllDishes_unassigned_witness :
  fst (processAllDishes Sample.dish_at (Reference.canCompleteOrder Sample.dish_at)
         (Reference.prepareDish Sample.dish_at)
         (setDishQueue Sample.kitchen [12%nat])) = setDishQueue Sample.kitchen [12%nat] ∧
  fst (processAllDishes Sample.dish_at (Reference.canCompleteOrder Sample.dish_at)
         (Reference.prepareDish Sample.dish_at)
         (mkBistro Sample.mem [] [10; 11]%nat [Sample.chicken 3]))
    = mkBistro Sample.mem [] [10; 11]%nat [Sample.chicken 3] ∧
  processAllDishes Sample.dish_at (Reference.canCompleteOrder Sample.dish_at)
    (Reference.prepareDish Sample.dish_at) Sample.kitchen
    = (Sample.kitchen, [completionLine]).
Proof.
  destruct (processAllDishes_unassigned Sample.dish_at
              (Reference.canCompleteOrder Sample.dish_at)
              (Reference.prepareDish Sample.dish_at)
              (setDishQueue Sample.kitchen [12%nat])) as (Hun & _ & _).
  destruct (processAllDishes_unassigned Sample.dish_at
              (Reference.canCompleteOrder Sample.dish_at)
              (Reference.prepareDish Sample.dish_at)
              (mkBistro Sample.mem [] [10; 11]%nat [Sample.chicken 3]))
    as (_ & Hnostation & _).
  destruct (processAllDishes_unassigned Sample.dish_at
              (Reference.canCompleteOrder Sample.dish_at)
              (Reference.prepareDish Sample.dish_at) Sample.kitchen)
    as (_ & _ & Hnodish).
  split_and!.
  - apply Hun. intros d p Hd Hp. simpl in Hd, Hp.
    apply elem_of_cons in Hd as [->|Hd]; [|by apply elem_of_nil in Hd].
    repeat (apply elem_of_cons in Hp as [->|Hp]; [reflexivity|]).
    by apply elem_of_nil in Hp.
  - apply Hnostation. reflexivity.
  - apply Hnodish. reflexivity.
Defined.

(** ** The dispatch pass: what a completed replenishment achieves *)








(** ** The dispatch pass: the lines it prints *)

Section DispatchTrace.

Variable dish_at : DishPtr → Dish.
Variable stationCan : KitchenStation → string → bool.
Variable stationPrepare : KitchenStation → string → bool * KitchenStation.

Lemma processQueue_trace queue temp_queue b :
  (preparingLine dish_at <$> queue)
    `sublist_of` snd (processQueue dish_at stationCan stationPrepare
                        queue temp_queue b) ∧
  ∀ d, d ∈ fst (fst (processQueue dish_at stationCan stationPrepare
                       queue temp_queue b)) →
       d ∈ temp_queue ∨
       (dish_name (dish_at d) ++ " was not prepared.")%string
         ∈ snd (processQueue dish_at stationCan stationPrepare queue temp_queue b).
Proof.
  revert temp_queue b.
  induction queue as [|dish rest IH]; intros temp_queue b.
  - simpl. split; [done|]. intros d Hd. by left.
  - cbn [processQueue].
    destruct (walkStations dish_at stationCan stationPrepare dish
                (items (set_dish_queue rest b)) (set_dish_queue rest b))
      as [[r b1] out].
    pose proof (IH (if r then temp_queue else temp_queue ++ [dish]) b1)
      as [Hsub Hin].
    destruct (processQueue dish_at stationCan stationPrepare rest
                (if r then temp_queue else temp_queue ++ [dish]) b1)
      as [[tq b2] out'].
    cbn [fst snd] in *. split.
    + rewrite fmap_cons. apply sublist_skip.
      by do 2 apply sublist_inserts_l.
    + intros d Hd. destruct (Hin d Hd) as [Ht|Hline].
      * destruct r; [by left|].
        apply elem_of_app in Ht as [Ht|Ht]; [by left|].
        apply list_elem_of_singleton in Ht as ->. right.
        right. apply elem_of_app. right. apply elem_of_app. left. left.
      * right. right. apply elem_of_app. right. apply elem_of_app. by right.
Qed.

Lemma displayDishQueue_names b :
  displayDishQueue dish_at b = (λ d, dish_name (dish_at d)) <$> dish_queue_ b.
Proof.
  unfold displayDishQueue.
  induction (dish_queue_ b) as [|d q IH]; simpl; [done|]. by rewrite IH.
Qed.

(** X22. The lines [processAllDishes] prints.  The dishes are announced in
    queue order: the lines [displayDishQueue] would print before the pass,
    each prefixed with "PREPARING DISH: ", occur in that order in the
    output.  Every dish left in the queue has its "was not prepared" line.
    The last line is always the closing line. *)
Theorem processAllDishes_trace (b : Bistro) :
  length (displayDishQueue dish_at b) = length (dish_queue_ b) ∧
  (String.append "PREPARING DISH: " <$> displayDishQueue dish_at b)
    `sublist_of` snd (processAllDishes dish_at stationCan stationPrepare b) ∧
  (∀ d, d ∈ dish_queue_ (fst (processAllDishes dish_at stationCan stationPrepare b)) →
        (dish_name (dish_at d) ++ " was not prepared.")%string
          ∈ snd (processAllDishes dish_at stationCan stationPrepare b)) ∧
  list.last (snd (processAllDishes dish_at stationCan stationPrepare b))
    = Some completionLine.
Proof.
  rewrite displayDishQueue_names, length_fmap, <- list_fmap_compose.
  unfold processAllDishes.
  pose proof (processQueue_trace (dish_queue_ b) [] b) as [Hsub Hin].
  destruct (processQueue dish_at stationCan stationPrepare (dish_queue_ b) [] b)
    as [[tq b'] out].
  cbn [fst snd] in *. split_and!.
  - done.
  - rewrite <- (app_nil_r (_ <$> dish_queue_ b)).
    by apply sublist_app; [|apply sublist_nil_l].
  - intros d Hd. simpl in Hd. destruct (Hin d Hd) as [Ht|Hline].
    + by apply elem_of_nil in Ht.
    + apply elem_of_app. by left.
  - apply last_snoc.
Qed.

End DispatchTrace.

Lemma processAllDishes_trace_witness :
  "Spaghetti Bolognese was not prepared."
    ∈ snd (processAllDishes Sample.dish_at
             (Reference.canCompleteOrder Sample.dish_at)
             (Reference.prepareDish Sample.dish_at) Sample.service).
Proof.
  destruct (processAllDishes_trace Sample.dish_at
              (Reference.canCompleteOrder Sample.dish_at)
              (Reference.prepareDish Sample.dish_at) Sample.service)
    as (_ & _ & Hline & _).
  apply (Hline 10%nat). left.
Defined.

(** ** Two more compositions *)

(** X24. After a successful [mergeStations(A, B)] the assignment scan of
    [processAllDishes] finds at A every dish name it found at A or at B
    before, and no other. *)
Theorem mergeStations_dishAssigned (dish_at : DishPtr → Dish) (b : Bistro)
    (A B : string) (pA pB : StationPtr) (dname : string) :
  findStation b A = Some pA → findStation b B = Some pB →
  dishAssigned dish_at (station_at (snd (mergeStations b A B)) pA) dname
  = dishAssigned dish_at (station_at b pA) dname
    || dishAssigned dish_at (station_at b pB) dname.
Proof.
  intros HA HB.
  destruct (mergeStations_found b A B pA pB HA HB)
    as (_ & _ & _ & _ & _ & _ & _ & _ & ->).
  unfold dishAssigned. simpl. apply existsb_app.
Qed.

Lemma mergeStations_dishAssigned_witness :
  dishAssigned Sample.dish_at
    (station_at (snd (mergeStations Sample.kitchen "Pasta Station" "Grill Station"))
                3%nat) "Grilled Chicken" = true.
Proof.
  rewrite (mergeStations_dishAssigned Sample.dish_at Sample.kitchen
             "Pasta Station" "Grill Station" 3%nat 1%nat "Grilled Chicken"
             eq_refl eq_refl).
  reflexivity.
Defined.

(** X25. [replenishStationIngredientFromBackup(station, name, q)] succeeds
    exactly when [q] is positive, the station is registered, the pool has a
    record of that name and the first such record holds at least [q]; in
    particular it fails for a station that is not registered, whatever the
    pool holds. *)
Theorem replenishFromBackup_succeeds_iff (b : Bistro) (sname iname : string)
    (q : Z) :
  fst (replenishStationIngredientFromBackup b sname iname q) = true ↔
  0 < q ∧ is_Some (findStation b sname) ∧
  iname ∈ (name <$> backup_ingredients_ b) ∧
  q ≤ currentQuantity (backup_ingredients_ b) iname.
Proof.
  unfold replenishStationIngredientFromBackup.
  destruct (Z.leb_spec q 0) as [Hle|Hpos].
  - split; [done|]. intros (? & _). lia.
  - destruct (findStation b sname) as [station|] eqn:Hs.
    + destruct (withdraw_loop (backup_ingredients_ b) iname q)
        as [[r pool']|] eqn:Hw; simpl.
      * split; [intros _|done].
        destruct (decide (iname ∈ (name <$> backup_ingredients_ b))) as [Hin|Hnin].
        -- destruct (Z.le_gt_cases q (currentQuantity (backup_ingredients_ b) iname))
             as [Hq|Hq]; [by split_and!|].
           assert (withdraw_loop (backup_ingredients_ b) iname q = None) as Hn
             by (apply withdraw_loop_None; by right).
           congruence.
        -- assert (withdraw_loop (backup_ingredients_ b) iname q = None) as Hn
             by (apply withdraw_loop_None; by left).
           congruence.
      * split; [done|]. intros (_ & _ & Hin & Hq).
        apply withdraw_loop_None in Hw as [Hn|Hlt]; [done|lia].
    + simpl. split; [done|]. by intros (_ & [? ?] & _).
Qed.

Lemma replenishFromBackup_succeeds_iff_witness :
  fst (replenishStationIngredientFromBackup (Sample.scenario 10)
         "Oven Station" "Chicken" 10) = true ∧
  fst (replenishStationIngredientFromBackup (Sample.scenario 10)
         "Pasta Station" "Chicken" 1) ≠ true.
Proof.
  split.
  - apply replenishFromBackup_succeeds_iff.
    split_and!; [lia|by eexists|left|simpl; lia].
  - intros (_ & [p Hp] & _)%replenishFromBackup_succeeds_iff. discriminate Hp.
Defined.

(** ** The run of main.cpp *)

(** With the reference station, [main] prepares both dishes: the queue ends
    empty and the pool has given one unit of each ingredient. *)
Example main_run :
  let b' := fst (processAllDishes Main.dish_at
                   (Reference.canCompleteOrder Main.dish_at)
                   (Reference.prepareDish Main.dish_at) Main.setup) in
  stationNames Main.setup = ["Grill Station"; "Pasta Station"] ∧
  dish_queue_ Main.setup = [1; 2]%nat ∧
  dish_queue_ b' = [] ∧
  (quantity <$> backup_ingredients_ b') = [4; 4; 4; 4].
Proof. repeat split. Qed.
